(** * semeval19_task3: the training harness of [san/train.py]

  A shallow embedding of [train], [predict], [submission],
  [build_sswe_vectors] and the checkpoint-saving part of [main], with the
  properties of the specification stated and proved (or refuted) on it.

  Conventions.
  - Python floats are abstracted by exact rationals ([Q]): every finite
    float is a rational and [<], [>] on floats is the rational order.
  - Python exceptions are an error result ([res]).
  - Tensors live in a heap of cells; a parameter, an entry of a
    [state_dict] and a deep copy are locations in that heap, so that
    in-place updates and aliasing are visible.
  - A Python iterator (the [filter] object of line 37) is the list of the
    items it has not yielded yet. *)

From Stdlib Require Import ZArith QArith Qabs Lia.
From stdpp Require Import base list strings gmap pretty.

Local Open Scope Z_scope.

(** ** Python exceptions *)

Inductive exn : Set :=
| ZeroDivisionError
| IndexError
| ValueError
| RuntimeError
| TypeError.

Inductive res (A : Type) : Type :=
| Ok (a : A)
| Raise (e : exn).
Arguments Ok {A} a.
Arguments Raise {A} e.

#[global] Instance res_ret : MRet res := fun A a => Ok a.
#[global] Instance res_bind : MBind res := fun A B k m =>
  match m with
  | Ok a => k a
  | Raise e => Raise e
  end.

(** Strict comparison of two floats, [x < y]. *)
Definition Qltb (x y : Q) : bool := negb (Qle_bool y x).

(** ** Python iterators

  [filter(f, xs)] in Python 3 is a one-shot iterator: consuming it (with
  [list(...)] or a [for] loop) yields the remaining items and leaves it
  empty. *)

Module PyIter.
Definition t (A : Type) : Type := list A.

(** [list(it)] / [for x in it]: all remaining items, and the iterator
    afterwards. *)
Definition drain {A : Type} (it : t A) : list A * t A := (it, []).
End PyIter.

(** ** The heap of tensors *)

(** A location: the index of a tensor object in the heap. *)
Abbreviation loc := nat.

Section Heap.
Context {Tensor : Type}.

(** A tensor object: its storage, the gradient attached to it ([p.grad],
    [None] until a backward pass writes one) and [p.requires_grad]. *)
Record Cell : Type := mkCell {
  data : Tensor;
  grad : option Tensor;
  requires_grad : bool;
}.

#[local] Abbreviation heap := (list Cell).

Definition set_data (d : Tensor) (c : Cell) : Cell :=
  {| data := d; grad := grad c; requires_grad := requires_grad c |}.

Definition set_grad (g : option Tensor) (c : Cell) : Cell :=
  {| data := data c; grad := g; requires_grad := requires_grad c |}.

(** The storages behind a list of tensor objects. *)
Definition read_data (h : heap) (ls : list loc) : list Tensor :=
  omap (fun l => data <$> h !! l) ls.

Definition read_grad (h : heap) (ls : list loc) : list Tensor :=
  omap (fun l => h !! l ≫= grad) ls.

(** [copy.deepcopy(model.state_dict())]: [state_dict()] maps every
    parameter name to the parameter's own storage (the entries alias the
    model); [deepcopy] clones each storage into a new tensor object. The
    result is the list of the new objects, in parameter order. *)
Definition state_dict (model : list loc) : list loc := model.

Definition deepcopy (h : heap) (sd : list loc) : list loc * heap :=
  let vals := read_data h sd in
  (seq (length h) (length vals),
   h ++ map (fun d => mkCell d None false) vals).
End Heap.
Arguments Cell : clear implicits.

(** The heap: the tensor objects allocated so far; a location is an index
    into it. *)
Abbreviation heap Tensor := (list (Cell Tensor)).


(** ** Python arithmetic that can raise *)

(** [a % b] on ints: floor modulo, the sign follows the divisor, as
    [Z.modulo]; division by zero raises. *)
Definition py_mod (a b : Z) : res Z :=
  if b =? 0 then Raise ZeroDivisionError else Ok (a mod b).

(** [a // b] on ints: floor division, as [Z.div]. *)
Definition py_floordiv (a b : Z) : res Z :=
  if b =? 0 then Raise ZeroDivisionError else Ok (a / b).

(** [a / b] with [b] an int. *)
Definition py_truediv (a : Q) (b : N) : res Q :=
  if (b =? 0)%N then Raise ZeroDivisionError
  else Ok (a / inject_Z (Z.of_N b))%Q.

(** The format [:.4f] of an f-string: four decimals, the exact value
    rounded half to even. *)
Definition round_half_even (q : Q) : Z :=
  let a := Qnum q in
  let b := Z.pos (Qden q) in
  let fl := a / b in
  let r := a mod b in
  if 2 * r <? b then fl
  else if b <? 2 * r then fl + 1
  else if Z.even fl then fl else fl + 1.

Definition pad4 (s : string) : string :=
  match String.length s with
  | 0%nat => "0000" +:+ s
  | 1%nat => "000" +:+ s
  | 2%nat => "00" +:+ s
  | 3%nat => "0" +:+ s
  | _ => s
  end.

Definition format_f4 (q : Q) : string :=
  let n := round_half_even (Qabs q * 10000)%Q in
  (if Qltb q 0 then "-" else "") +:+ pretty (n / 10000) +:+ "." +:+ pad4 (pretty (n mod 10000)).

(** ** The training loop, [train] (lines 21-131) *)

(** The run parameters [train] and [main] read from [args]. *)
Record Args : Type := mkArgs {
  max_epoch : Z;
  print_every : Z;
  validate_every : Z;
  norm_limit : Q;
  model_time : string;
}.

(** What one training step contributes to the running metrics:
    [batch_loss.item()], [(pred == batch.label).sum()] and [len(pred)]. *)
Record StepOut : Type := mkStepOut {
  batch_loss : Q;
  n_correct : N;
  n_pred : N;
}.

Section Train.
Context {Tensor Batch OptState : Type}.

(** The collaborators of the loop, which live outside [train.py]. *)

(** Lines 71-97 and 103-105: the forward pass of the model on the current
    parameter storages, the criterion (with the optional [mfe_loss] term)
    and the gradients that [batch_loss.backward()] computes, one per
    parameter of the model. *)
Variable forward_backward : list Tensor -> Batch -> StepOut * list Tensor.

(** [p.grad.data.mul_(c)]. *)
Variable mul_ : Q -> Tensor -> Tensor.

(** The total 2-norm of a list of gradients, as [clip_grad_norm_] computes
    it. *)
Variable total_norm_of : list Tensor -> Q.

(** [optimizer.step()] of Adam on (storage, gradient) pairs: the new
    optimizer state and the new storages. *)
Variable adam_step : OptState -> list (Tensor * Tensor) -> OptState * list Tensor.

(** [scheduler.step()] of [StepLR]. *)
Variable scheduler_step : OptState -> OptState.

(** Modelled from the spec: [test(model, data, criterion, args)] of
    [test.py], which is not part of this file: the validation loss,
    accuracy and F1 of the current parameters, computed without updating
    any parameter. *)
Variable test : list Tensor -> Q * Q * Q.

(** [data.train_iter]: the batches it yields in each epoch. *)
Variable train_iter : nat -> list Batch.

(** [batch_loss.backward()] after [optimizer.zero_grad()]: every parameter
    that requires a gradient gets the freshly computed one. *)
Definition backward (model : list loc) (gs : list Tensor) (h : heap Tensor) : heap Tensor :=
  foldr (fun lg h' =>
           alter (fun c => if requires_grad c then set_grad (Some lg.2) c else c)
                 lg.1 h')
        h (zip model gs).

(** [nn.utils.clip_grad_norm_(parameters, max_norm)]:
    - [parameters = list(filter(lambda p: p.grad is not None, parameters))];
    - [total_norm] is the 2-norm of all their gradients;
    - [clip_coef = max_norm / (total_norm + 1e-6)];
    - if [clip_coef < 1], every gradient is multiplied by it in place.
    The iterable it receives is consumed. *)
Definition has_grad (h : heap Tensor) (l : loc) : bool :=
  match h !! l ≫= grad with Some _ => true | None => false end.

Definition clip_grad_norm_ (parameters : PyIter.t loc) (max_norm : Q) (h : heap Tensor)
  : heap Tensor * PyIter.t loc :=
  let (ps0, it) := PyIter.drain parameters in
  let ps := List.filter (has_grad h) ps0 in
  let total_norm := total_norm_of (read_grad h ps) in
  let clip_coef := (max_norm / (total_norm + 1e-6))%Q in
  if Qltb clip_coef 1
  then (foldr (fun l h' => alter (fun c => set_grad (mul_ clip_coef <$> grad c) c) l h') h ps, it)
  else (h, it).

(** [optimizer.step()]: the optimizer updates, in place, the parameters it
    was constructed with, skipping those without a gradient. *)
Definition optimizer_step (opt_params : list loc) (o : OptState) (h : heap Tensor)
  : OptState * heap Tensor :=
  let ps := List.filter (has_grad h) opt_params in
  let (o', ds) := adam_step o (zip (read_data h ps) (read_grad h ps)) in
  (o', foldr (fun ld h' => alter (set_data ld.2) ld.1 h') h (zip ps ds)).

(** What the run does, newest first. [EvStep] records a training step,
    [EvTrain] a report of the training metrics (lines 110-112: the two
    [add_scalar] calls and the [print]), [EvDev] a validation (lines
    117-127), with the snapshot it took, if any: the tensor objects of the
    deep copy and the values of the parameters of the model at that
    moment. *)
Inductive Event : Type :=
| EvStep (epoch : nat) (i : Z) (out : StepOut)
| EvTrain (c : Z) (loss acc : Q)
| EvDev (c : Z) (dev_loss dev_acc dev_f1 : Q)
        (snapshot : option (list loc * list Tensor)).

(** The variables of [train] that change during the run. *)
Record State : Type := mkState {
  st_heap : heap Tensor;
  st_opt : OptState;
  st_parameters : PyIter.t loc;
  st_acc : Q;
  st_loss : Q;
  st_size : N;
  st_max_dev_acc : Q;
  st_max_dev_f1 : Q;
  st_best_model : option (list loc);
  st_trace : list Event;
}.

Variable args : Args.

(** The model: the tensor objects of its parameters, in the order of
    [model.parameters()]. *)
Variable model : list loc.

Section Loop.
(** The parameters the optimizer holds. *)
Variable opt_params : list loc.

(** Lines 107-113. *)
Definition report (i : Z) (st : State) : res State :=
  r ← py_mod (i + 1) (print_every args);
  if r =? 0 then
    acc ← py_truediv (st_acc st) (st_size st);
    c ← py_floordiv (i + 1) (print_every args);
    Ok (mkState (st_heap st) (st_opt st) (st_parameters st)
                0%Q 0%Q 0%N
                (st_max_dev_acc st) (st_max_dev_f1 st) (st_best_model st)
                (EvTrain c (st_loss st) acc :: st_trace st))
  else Ok st.

(** Lines 115-128. *)
Definition validate (i : Z) (st : State) : res State :=
  r ← py_mod (i + 1) (validate_every args);
  if r =? 0 then
    c ← py_floordiv (i + 1) (validate_every args);
    let '(dev_loss, dev_acc, dev_f1) := test (read_data (st_heap st) model) in
    let max_dev_acc :=
      if Qltb (st_max_dev_acc st) dev_acc then dev_acc else st_max_dev_acc st in
    if Qltb (st_max_dev_f1 st) dev_f1 then
      let (best, h) := deepcopy (st_heap st) (state_dict model) in
      Ok (mkState h (st_opt st) (st_parameters st)
                  (st_acc st) (st_loss st) (st_size st)
                  max_dev_acc dev_f1 (Some best)
                  (EvDev c dev_loss dev_acc dev_f1
                         (Some (best, read_data (st_heap st) (state_dict model)))
                     :: st_trace st))
    else
      Ok (mkState (st_heap st) (st_opt st) (st_parameters st)
                  (st_acc st) (st_loss st) (st_size st)
                  max_dev_acc (st_max_dev_f1 st) (st_best_model st)
                  (EvDev c dev_loss dev_acc dev_f1 None :: st_trace st))
  else Ok st.

(** Lines 88-105: one training step. *)
Definition training_step (epoch : nat) (i : Z) (batch : Batch) (st : State) : State :=
  let (out, gs) := forward_backward (read_data (st_heap st) model) batch in
  let loss := (st_loss st + batch_loss out)%Q in
  let h1 := backward model gs (st_heap st) in
  let (h2, it) := clip_grad_norm_ (st_parameters st) (norm_limit args) h1 in
  let (o, h3) := optimizer_step opt_params (st_opt st) h2 in
  let acc := (st_acc st + inject_Z (Z.of_N (n_correct out)))%Q in
  let size := (st_size st + n_pred out)%N in
  mkState h3 o it acc loss size
          (st_max_dev_acc st) (st_max_dev_f1 st) (st_best_model st)
          (EvStep epoch i out :: st_trace st).

(** The body of the inner loop, lines 70-128. *)
Definition batch_step (epoch : nat) (i : Z) (batch : Batch) (st : State) : res State :=
  st1 ← report i (training_step epoch i batch st);
  validate i st1.

(** [for i, batch in enumerate(iterator)], from index [i]. *)
Fixpoint run_batches (epoch : nat) (i : Z) (bs : list Batch) (st : State) : res State :=
  match bs with
  | [] => Ok st
  | b :: bs' => st' ← batch_step epoch i b st; run_batches epoch (i + 1) bs' st'
  end.

(** Lines 68-128: one epoch. *)
Definition run_epoch (epoch : nat) (st : State) : res State :=
  let st0 := mkState (st_heap st) (scheduler_step (st_opt st)) (st_parameters st)
                     (st_acc st) (st_loss st) (st_size st)
                     (st_max_dev_acc st) (st_max_dev_f1 st) (st_best_model st)
                     (st_trace st) in
  run_batches epoch 0 (train_iter epoch) st0.

(** [for epoch in range(args.max_epoch)]: [n] epochs from [epoch] on. *)
Fixpoint run_epochs (n : nat) (epoch : nat) (st : State) : res State :=
  match n with
  | O => Ok st
  | S n' => st' ← run_epoch epoch st; run_epochs n' (S epoch) st'
  end.
End Loop.

(** Line 37: the parameters of the model that require a gradient. *)
Definition trainable (h0 : heap Tensor) : list loc :=
  List.filter (fun l => match h0 !! l with
                        | Some c => requires_grad c
                        | None => false
                        end) model.

(** A batch has at least one example, whatever the parameters. *)
Definition nonempty_batch (b : Batch) : Prop :=
  forall ps, n_pred (forward_backward ps b).1 <> 0%N.

(** [train(args, data)], given the heap [h0] and the optimizer state [o0]
    right after the model and the optimizer are constructed.
    - Line 37: [parameters] is a [filter] object over the parameters that
      require a gradient.
    - Line 38: [optim.Adam(parameters, ...)] stores [list(parameters)] as
      its parameter group, which consumes the [filter] object, and raises
      [ValueError] on an empty list.
    - Lines 60-63: the accumulators, [max_dev_acc], [max_dev_f1] and
      [best_model].
    The Python function returns [(best_model, max_dev_f1)] of the final
    state; the model keeps the whole state for the statements below. *)
Definition train (h0 : heap Tensor) (o0 : OptState) : res State :=
  let parameters : PyIter.t loc := trainable h0 in
  let (opt_params, parameters) := PyIter.drain parameters in
  match opt_params with
  | [] => Raise ValueError
  | _ :: _ =>
      run_epochs opt_params (Z.to_nat (max_epoch args)) 0
        (mkState h0 o0 parameters 0%Q 0%Q 0%N 0%Q 0%Q None [])
  end.

(** Lines 270-275 of [main]: the checkpoint file, its name and the object
    pickled into it by [torch.save]: the values of the tensors of
    [best_model], or [None]. *)

Definition main (h0 : heap Tensor) (o0 : OptState)
  : res (string * option (list Tensor)) :=
  st ← train h0 o0;
  let model_name :=
    ("SAN4EMO_" +:+ model_time args +:+ "_" +:+ format_f4 (st_max_dev_f1 st) +:+ ".pt")%string in
  Ok (("saved_models/" +:+ model_name)%string,
      read_data (st_heap st) <$> st_best_model st).
End Train.

(** ** Reading the run off its trace *)

Section Trace.
Context {Tensor : Type}.

(** The steps accumulated since the last report of training metrics,
    newest first, of a trace given newest first. *)
Fixpoint open_window (tr : list (@Event Tensor)) : list StepOut :=
  match tr with
  | [] => []
  | EvStep _ _ out :: tr' => out :: open_window tr'
  | EvTrain _ _ _ :: _ => []
  | EvDev _ _ _ _ _ :: tr' => open_window tr'
  end.

(** The same, but only the steps of the epoch of the newest step: the
    window a loop that dropped the trailing steps of an epoch would
    report. *)
Fixpoint epoch_window_of (e : nat) (tr : list (@Event Tensor)) : list StepOut :=
  match tr with
  | [] => []
  | EvStep e' _ out :: tr' =>
      if decide (e' = e) then out :: epoch_window_of e tr' else []
  | EvTrain _ _ _ :: _ => []
  | EvDev _ _ _ _ _ :: tr' => epoch_window_of e tr'
  end.

Definition epoch_window (tr : list (@Event Tensor)) : list StepOut :=
  match tr with
  | EvStep e _ _ :: _ => epoch_window_of e tr
  | _ => []
  end.

(** Sums over a window given newest first, added up oldest first as the
    loop does. *)
Definition sum_loss (w : list StepOut) : Q :=
  foldr (fun out s => (s + batch_loss out)%Q) 0%Q w.

Definition sum_correct (w : list StepOut) : Q :=
  foldr (fun out s => (s + inject_Z (Z.of_N (n_correct out)))%Q) 0%Q w.

Definition sum_size (w : list StepOut) : N :=
  foldr (fun out s => (s + n_pred out)%N) 0%N w.

(** The average of the batch losses of a window. *)
Definition mean_loss (w : list StepOut) : Q :=
  (sum_loss w / inject_Z (Z.of_nat (length w)))%Q.

(** The validation F1 values of a trace, in the order of the trace. *)
Fixpoint dev_f1s (tr : list (@Event Tensor)) : list Q :=
  match tr with
  | [] => []
  | EvDev _ _ _ f _ :: tr' => f :: dev_f1s tr'
  | _ :: tr' => dev_f1s tr'
  end.

(** The best validation F1 so far, starting from zero, of a trace given
    newest first. *)
Fixpoint best_f1 (tr : list (@Event Tensor)) : Q :=
  match tr with
  | [] => 0%Q
  | EvDev _ _ _ f _ :: tr' => if Qltb (best_f1 tr') f then f else best_f1 tr'
  | _ :: tr' => best_f1 tr'
  end.

(** The newest deep copy of a trace given newest first. *)
Fixpoint latest_snapshot (tr : list (@Event Tensor)) : option (list loc * list Tensor) :=
  match tr with
  | [] => None
  | EvDev _ _ _ _ (Some s) :: _ => Some s
  | _ :: tr' => latest_snapshot tr'
  end.

(** For each validation of a trace, in the order of the trace: its F1 and
    whether it took a snapshot. *)
Fixpoint validations (tr : list (@Event Tensor)) : list (Q * bool) :=
  match tr with
  | [] => []
  | EvDev _ _ _ f s :: tr' => (f, bool_decide (is_Some s)) :: validations tr'
  | _ :: tr' => validations tr'
  end.

(** What the loop guarantees about each report and each validation of a
    trace given newest first, for the reporting interval [pe]:
    - a report carries the sums over the steps since the previous report,
      and directly follows a step whose index within its epoch, plus one,
      is a multiple of [pe];
    - a validation took a snapshot exactly when its F1 exceeded the best
      F1 before it. *)
Fixpoint trace_ok (pe : Z) (tr : list (@Event Tensor)) : Prop :=
  match tr with
  | [] => True
  | EvStep _ _ _ :: tr' => trace_ok pe tr'
  | EvTrain c loss acc :: tr' =>
      (loss = sum_loss (open_window tr') /\
       sum_size (open_window tr') <> 0%N /\
       acc = (sum_correct (open_window tr')
              / inject_Z (Z.of_N (sum_size (open_window tr'))))%Q /\
       exists e i out tr'',
         tr' = EvStep e i out :: tr'' /\ (i + 1) mod pe = 0 /\ c = (i + 1) / pe)
      /\ trace_ok pe tr'
  | EvDev _ _ _ f s :: tr' =>
      (is_Some s <-> Qltb (best_f1 tr') f = true) /\ trace_ok pe tr'
  end.

(** Every step whose index plus one is a multiple of [pe] is directly
    followed by a report; [newer] is the event after the trace. *)
Fixpoint steps_reported (pe : Z) (newer : option (@Event Tensor)) (tr : list (@Event Tensor)) : Prop :=
  match tr with
  | [] => True
  | ev :: tr' =>
      match ev with
      | EvStep _ i _ =>
          (i + 1) mod pe = 0 -> exists c loss acc, newer = Some (EvTrain c loss acc)
      | _ => True
      end /\ steps_reported pe (Some ev) tr'
  end.
End Trace.

(** The run in chronological order. *)
Definition history {Tensor OptState : Type} (st : @State Tensor OptState) : list (@Event Tensor) :=
  rev (st_trace st).

(** ** A small instance to run the loop on

    One scalar parameter at location [0]. A batch carries what the step
    reports and the gradient the backward pass computes; the optimizer
    moves the parameter to the gradient; the validation F1 is the value of
    the parameter. The 2-norm of a single scalar gradient is its absolute
    value. *)
Module Demo.
Definition Tensor : Type := Q.
Definition Batch : Type := (StepOut * Q)%type.

Definition forward_backward (ps : list Tensor) (b : Batch) : StepOut * list Tensor :=
  (b.1, [b.2]).

Definition total_norm_of (gs : list Tensor) : Q :=
  foldr (fun g s => (Qabs g + s)%Q) 0%Q gs.

Definition adam_step (o : unit) (dg : list (Tensor * Tensor)) : unit * list Tensor :=
  (o, map (fun p => p.2) dg).

Definition test (ps : list Tensor) : Q * Q * Q :=
  (0%Q, 0%Q, hd 0%Q ps).

Definition h0 : heap Tensor := [mkCell 0%Q None true].
Definition model : list loc := [0%nat].

Definition step (l : Q) (correct n : N) (g : Q) : Batch := (mkStepOut l correct n, g).

Definition train (args : Args) (train_iter : nat -> list Batch) : res (@State Tensor unit) :=
  @train Tensor Batch unit forward_backward Qmult total_norm_of adam_step
         (fun o => o) test train_iter args model h0 tt.

Definition main (args : Args) (train_iter : nat -> list Batch) :=
  @main Tensor Batch unit forward_backward Qmult total_norm_of adam_step
        (fun o => o) test train_iter args model h0 tt.

(** Four batches in one epoch, validated after each; the validation F1
    values are 0.2, 0.5, 0.3 and 0.6. *)
Definition args_f1 : Args := mkArgs 1 10 1 1%Q "12:00:00".
Definition iter_f1 (e : nat) : list Batch :=
  [step 1 1 2 0.2; step 1 1 2 0.5; step 1 1 2 0.3; step 1 1 2 0.6]%Q.

(** Two batches in one epoch, validated after each: the first validation
    takes a snapshot, the second step then moves the parameter. *)
Definition iter_regress (e : nat) : list Batch :=
  [step 1 1 2 0.5; step 1 1 2 0.3]%Q.

(** Two epochs of three batches, reported every two steps. *)
Definition args_window : Args := mkArgs 2 2 10 1%Q "12:00:00".
Definition iter_window (e : nat) : list Batch :=
  match e with
  | O => [step 1 1 1 0; step 1 1 1 0; step 5 0 1 0]%Q
  | _ => [step 1 1 1 0; step 1 1 1 0; step 1 1 1 0]%Q
  end.

(** One step whose gradient has norm 5, with [norm_limit = 1]. *)
Definition args_clip : Args := mkArgs 1 10 10 1%Q "12:00:00".
Definition iter_clip (e : nat) : list Batch := [step 1 1 1 5]%Q.
End Demo.

(** ** Python strings

    A [str] is a sequence of Unicode code points. *)

Abbreviation str := (list N).

(** An ASCII literal as a [str]. *)
Definition s_ (s : string) : str :=
  map (fun a => N.of_nat (Ascii.nat_of_ascii a)) (String.list_ascii_of_string s).

Definition TAB : N := 9%N.
Definition NL : N := 10%N.

(** The characters [str.strip()] removes ([str.isspace]). *)
Definition py_isspace (c : N) : bool :=
  ((9 <=? c) && (c <=? 13) || (28 <=? c) && (c <=? 32)
   || (c =? 133) || (c =? 160) || (c =? 5760)
   || (8192 <=? c) && (c <=? 8202)
   || (c =? 8232) || (c =? 8233) || (c =? 8239) || (c =? 8287)
   || (c =? 12288))%N.

Fixpoint lstrip (s : str) : str :=
  match s with
  | c :: s' => if py_isspace c then lstrip s' else s
  | [] => []
  end.

Definition rstrip (s : str) : str := rev (lstrip (rev s)).

(** [s.strip()]. *)
Definition strip (s : str) : str := rstrip (lstrip s).

(** [s.split(sep)] for a one-character separator: always at least one
    field. *)
Fixpoint split (sep : N) (s : str) : list str :=
  match s with
  | [] => [[]]
  | c :: s' =>
      if (c =? sep)%N then [] :: split sep s'
      else match split sep s' with
           | f :: fs => (c :: f) :: fs
           | [] => [[c]]
           end
  end.

(** [sep.join(fields)]. *)
Fixpoint join (sep : str) (fields : list str) : str :=
  match fields with
  | [] => []
  | [f] => f
  | f :: fs => f ++ sep ++ join sep fs
  end.

(** The lines of a text file, as [readline], [readlines] and iteration
    over the file yield them: each keeps its newline, the last one may
    lack it. (The file object has already translated the line ends.) *)
Fixpoint file_lines_from (cur : str) (s : str) : list str :=
  match s with
  | [] => match cur with [] => [] | _ => [rev cur] end
  | c :: s' =>
      if (c =? NL)%N then rev (c :: cur) :: file_lines_from [] s'
      else file_lines_from (c :: cur) s'
  end.

Definition file_lines (content : str) : list str := file_lines_from [] content.

(** The translation of the line ends by a file object opened for reading
    in text mode: a carriage return followed by a line feed, and a
    carriage return alone, are read as a line feed. *)
Definition CR : N := 13.

Fixpoint translate_newlines (s : str) : str :=
  match s with
  | [] => []
  | c :: s' =>
      if (c =? CR)%N then
        match s' with
        | c' :: s'' =>
            if (c' =? NL)%N then NL :: translate_newlines s''
            else NL :: translate_newlines s'
        | [] => [NL]
        end
      else c :: translate_newlines s'
  end.

(** [for line in io.open(path)]: the lines of the stored content. *)
Definition read_lines (stored : str) : list str :=
  file_lines (translate_newlines stored).

(** A Python list indexed by a non-negative int. *)
Definition py_index {A : Type} (l : list A) (i : nat) : res A :=
  match l !! i with
  | Some a => Ok a
  | None => Raise IndexError
  end.

(** [mapM] over the error result, left to right. *)
Fixpoint traverse {A B : Type} (f : A -> res B) (l : list A) : res (list B) :=
  match l with
  | [] => Ok []
  | a :: l' => b ← f a; bs ← traverse f l'; Ok (b :: bs)
  end.

(** ** Class scores and [argmax] *)

(** The scores of a row are compared with [>]; on numbers (not NaN) this is
    a strict weak order. *)
Class Score (S : Type) : Type := {
  gtb : S -> S -> bool;
  gtb_asym : forall x y, gtb x y = true -> gtb y x = false;
  gtb_cotrans : forall x y z, gtb x y = true -> gtb x z = true \/ gtb z y = true;
}.

Section Argmax.
Context {S : Type} `{Score S}.

(** The scan behind [ndarray.argmax]: the first index of a maximum. *)
Fixpoint argmax_from (best_i : nat) (best : S) (i : nat) (xs : list S) : nat :=
  match xs with
  | [] => best_i
  | x :: xs' =>
      if gtb x best then argmax_from i x (Datatypes.S i) xs'
      else argmax_from best_i best (Datatypes.S i) xs'
  end.

(** [row.argmax()]; an empty row raises. *)
Definition argmax (row : list S) : res nat :=
  match row with
  | [] => Raise ValueError
  | x :: xs => Ok (argmax_from 0%nat x 1%nat xs)
  end.

(** Index [i] is the first maximum of a row: no score of the row exceeds
    the score at [i], which exceeds every score before it. *)
Definition first_max (row : list S) (i : nat) : Prop :=
  exists x,
    row !! i = Some x /\
    (forall j y, row !! j = Some y -> gtb y x = false) /\
    (forall j y, (j < i)%nat -> row !! j = Some y -> gtb x y = true).
End Argmax.

(** ** [predict] (lines 134-161) and [submission] (lines 164-196) *)

Section Submission.
Context {S TestBatch : Type} `{Score S}.

(** [model(batch)] in evaluation mode: one row of logits per example. *)
Variable forward : TestBatch -> list (list S).

(** [nn.Softmax(dim=1)] on one row. *)
Variable softmax : list S -> list S.

(** [data.test_iter] and [data.LABEL.vocab.itos]. *)
Variable test_iter : list TestBatch.
Variable itos : list str.

(** Lines 165-177: the test data and the model are built and
    [model.load_state_dict(torch.load(...))] loads the checkpoint; the
    outcome of these library calls ([Raise TypeError] when the file holds
    [None], the checkpoint of a run without a snapshot). *)
Variable load_checkpoint : res unit.

(** The logits of the test examples, in the order of the test set. *)
Definition all_logits : list (list S) := concat (map forward test_iter).

(** [np.concatenate] along the first axis: the rows of the arrays, one
    array after the other. It raises [ValueError] on an empty list of
    arrays, and when two arrays differ in their number of columns. (An
    array is the list of its rows here, so an array without rows has no
    width of its own.) *)
Definition same_width (rows : list (list S)) : bool :=
  match rows with
  | [] => true
  | row :: rows' => forallb (fun row' => (length row' =? length row)%nat) rows'
  end.

Definition np_concatenate (arrays : list (list (list S))) : res (list (list S)) :=
  match arrays with
  | [] => Raise ValueError
  | _ :: _ =>
      if same_width (concat arrays) then Ok (concat arrays) else Raise ValueError
  end.

(** [predict] (lines 134-161): the softmax of the logits of every batch,
    concatenated. *)
Definition predict : res (list (list S)) :=
  np_concatenate (map (fun batch => map softmax (forward batch)) test_iter).

(** Lines 191: the header. *)
Definition header : str :=
  join [TAB] [s_ "id"; s_ "turn1"; s_ "turn2"; s_ "turn3"; s_ "label"] ++ [NL].

(** Lines 195-196: what is written for line [lineNum] of the input. *)
Definition submission_row (preds : list nat) (lineNum : nat) (line : str) : res str :=
  p ← py_index preds lineNum;
  label ← py_index itos p;
  Ok ((join [TAB] (take 4 (split TAB (strip line))) ++ [TAB]) ++ (label ++ [NL])).

Fixpoint submission_rows (preds : list nat) (lineNum : nat) (lines : list str) : res (list str) :=
  match lines with
  | [] => Ok []
  | line :: lines' =>
      r ← submission_row preds lineNum line;
      rs ← submission_rows preds (Datatypes.S lineNum) lines';
      Ok (r :: rs)
  end.

(** The data row the specification describes: the first four
    tab-separated columns of the input row, as they are, and the label.
    The input row is the line without its line end. *)
Definition chomp (line : str) : str :=
  match rev line with
  | c :: r => if (c =? NL)%N then rev r else line
  | [] => line
  end.

Definition row_as_specified (line : str) (label : str) : str :=
  join [TAB] (take 4 (split TAB (chomp line)) ++ [label]) ++ [NL].

(** [submission], given the content of the input file
    [devwithoutlabels.txt] as the file object delivers it (line ends
    translated): the content of the file it writes. *)
Definition submission (fin : str) : res str :=
  _ ← load_checkpoint;
  preds ← predict;
  preds ← traverse argmax preds;
  rows ← submission_rows preds 0%nat (tail (file_lines fin));
  Ok (header ++ concat rows).
End Submission.

(** ** [build_sswe_vectors] (lines 199-231) *)

Section Sswe.
Context {Row : Type}.

(** Lines 209-218: [itos] and [stoi] of the source vocabulary file. *)
Fixpoint read_vocab (lines : list str) (idx : nat) (itos : list str) (stoi : gmap str nat)
  : list str * gmap str nat :=
  match lines with
  | [] => (itos, stoi)
  | line :: lines' =>
      let line := strip line in
      read_vocab lines' (Datatypes.S idx) (itos ++ [line]) (<[line := idx]> stoi)
  end.

(** Lines 223-226: the guarded lookup; a missing key gives index 0. *)
Definition lookup_index (text_itos : list str) (stoi : gmap str nat) (i : nat) : nat :=
  match text_itos !! i ≫= (fun tok => stoi !! tok) with
  | Some index => index
  | None => 0%nat
  end.

(** [torch.stack] raises on an empty list of tensors. *)
Definition torch_stack (vectors : list Row) : res (list Row) :=
  match vectors with
  | [] => Raise RuntimeError
  | _ :: _ => Ok vectors
  end.

(** [build_sswe_vectors], given [TEXT.vocab.itos], the source embedding
    (its rows) and the content of the source vocabulary file: the tensor
    it saves. Line 227, [embedding[index]], is outside the [try]. *)
Definition build_sswe_vectors (text_itos : list str) (embedding : list Row) (vocab : str)
  : res (list Row) :=
  let (itos, stoi) := read_vocab (file_lines vocab) 0%nat [] ∅ in
  vectors ← traverse (fun i => py_index embedding (lookup_index text_itos stoi i))
                     (seq 0 (length text_itos));
  torch_stack vectors.

(** The index of the last occurrence of a token in a list of tokens. *)
Fixpoint last_index (tok : str) (toks : list str) : option nat :=
  match toks with
  | [] => None
  | t :: toks' =>
      match last_index tok toks' with
      | Some j => Some (Datatypes.S j)
      | None => if decide (t = tok) then Some 0%nat else None
      end
  end.
End Sswe.

(** ** Scores as rationals *)

Lemma Qltb_lt (x y : Q) : Qltb x y = true <-> (x < y)%Q.
Proof.
  unfold Qltb. rewrite negb_true_iff, <- not_true_iff_false, Qle_bool_iff.
  split; [apply Qnot_le_lt | apply Qlt_not_le].
Qed.

Lemma Qltb_nlt (x y : Q) : Qltb x y = false <-> (y <= x)%Q.
Proof.
  unfold Qltb. rewrite negb_false_iff. apply Qle_bool_iff.
Qed.

Lemma Qgtb_asym (x y : Q) : Qltb y x = true -> Qltb x y = false.
Proof. rewrite Qltb_lt, Qltb_nlt. apply Qlt_le_weak. Qed.

Lemma Qgtb_cotrans (x y z : Q) :
  Qltb y x = true -> Qltb z x = true \/ Qltb y z = true.
Proof.
  rewrite !Qltb_lt. intros Hyx.
  destruct (Qlt_le_dec z x) as [Hzx|Hxz]; [now left | right].
  eapply Qlt_le_trans; eassumption.
Qed.

#[global] Instance Score_Q : Score Q := {|
  gtb x y := Qltb y x;
  gtb_asym := Qgtb_asym;
  gtb_cotrans x y z := Qgtb_cotrans x y z;
|}.

(** ** Small inputs for [submission] and [build_sswe_vectors] *)

Module DemoSubmission.
(** A stand-in for the probability transform on rational scores: each
    score divided by the sum of the row. *)
Definition normalize (row : list Q) : list Q :=
  let z := foldr Qplus 0%Q row in
  map (fun x => Qred (x / z)) row.

Definition itos : list str := [s_ "others"; s_ "happy"; s_ "sad"; s_ "angry"].

(** Two batches, three examples. *)
Definition test_iter : list (list (list Q)) :=
  [[[1; 5; 2; 2]; [4; 1; 4; 1]]; [[1; 1; 2; 6]]]%Q.

Definition submission (fin : str) : res str :=
  @submission Q (list (list Q)) _ (fun batch => batch) normalize test_iter itos (Ok tt) fin.

(** A well-formed input file: every turn is non-blank. *)
Definition fin_plain : str :=
  s_ "id" ++ [TAB] ++ s_ "turn1" ++ [TAB] ++ s_ "turn2" ++ [TAB] ++ s_ "turn3" ++ [NL]
  ++ s_ "0" ++ [TAB] ++ s_ "hi" ++ [TAB] ++ s_ "yo" ++ [TAB] ++ s_ "great" ++ [NL]
  ++ s_ "1" ++ [TAB] ++ s_ "a b" ++ [TAB] ++ s_ "c" ++ [TAB] ++ s_ "d" ++ [NL]
  ++ s_ "2" ++ [TAB] ++ s_ "x" ++ [TAB] ++ s_ "y" ++ [TAB] ++ s_ "z" ++ [NL].

(** An input file whose first data row ends with a blank third turn. *)
Definition fin_blank : str :=
  s_ "id" ++ [TAB] ++ s_ "turn1" ++ [TAB] ++ s_ "turn2" ++ [TAB] ++ s_ "turn3" ++ [NL]
  ++ s_ "0" ++ [TAB] ++ s_ "hi" ++ [TAB] ++ s_ "yo" ++ [TAB] ++ [NL].
End DemoSubmission.

Module DemoSswe.
(** The source vocabulary file: [<unk>], [good], [bad]. *)
Definition vocab : str := s_ "<unk>" ++ [NL] ++ s_ "good" ++ [NL] ++ s_ "bad" ++ [NL].

(** The run's vocabulary. *)
Definition text_itos : list str := [s_ "<unk>"; s_ "bad"; s_ "meh"; s_ "good"].

(** A source embedding with a row for each line of the vocabulary file,
    and one that lacks the last two rows. *)
Definition embedding : list (list Z) := [[0; 0]; [1; 1]; [2; 2]].
Definition embedding_short : list (list Z) := [[0; 0]].
End DemoSswe.


(** ** The class weights of the focal loss (lines 40-48 of [train]) *)

(** [l[i] = x] on a Python list, for a non-negative index. *)
Definition py_setitem {A : Type} (l : list A) (i : nat) (x : A) : res (list A) :=
  if decide (i < length l)%nat then Ok (<[i := x]> l) else Raise IndexError.

Section Focal.
(** Python floats, with the constants and the operations of line 42. *)
Context {F : Type}.
Variable one three : F.
Variable fsub fdiv : F -> F -> F.

(** Lines 41-45: [alpha], given [args.fl_alpha], [args.class_size] and
    [others_idx = data.LABEL.vocab.stoi['others']]. [[x] * n] is empty for
    [n <= 0]. *)
Definition focal_alpha (fl_alpha : option F) (class_size : Z) (others_idx : nat)
  : res (option (list F)) :=
  match fl_alpha with
  | Some a =>
      alpha ← py_setitem (replicate (Z.to_nat class_size) (fdiv (fsub one a) three))
                         others_idx a;
      Ok (Some alpha)
  | None => Ok None
  end.
End Focal.

(** ** [build_datastories_vectors] (lines 234-248) *)

(** [s.split()]: the maximal runs of characters that are not white
    space. *)
Fixpoint split_ws_from (cur : str) (s : str) : list str :=
  match s with
  | [] => match cur with [] => [] | _ => [rev cur] end
  | c :: s' =>
      if py_isspace c
      then match cur with
           | [] => split_ws_from [] s'
           | _ => rev cur :: split_ws_from [] s'
           end
      else split_ws_from (c :: cur) s'
  end.

Definition split_ws (s : str) : list str := split_ws_from [] s.

Section Datastories.
Context {F : Type}.

(** The conversion of a string to a [float32]; [None] when the string is
    not a number. *)
Variable parse_float : str -> option F.

(** [np.asarray(values, dtype='float32')] on a list of strings. *)
Definition np_asarray (values : list str) : res (list F) :=
  traverse (fun v => match parse_float v with
                     | Some x => Ok x
                     | None => Raise ValueError
                     end) values.

(** Lines 241-246: the loop over the lines of the file; [stoi] is
    [data.TEXT.vocab.stoi]. *)
Fixpoint index_lines (stoi : gmap str nat) (lines : list str)
         (embeddings_dict : gmap str (list F)) : res (gmap str (list F)) :=
  match lines with
  | [] => Ok embeddings_dict
  | line :: lines' =>
      let values := split_ws line in
      word ← py_index values 0;
      match stoi !! word with
      | Some _ =>
          coefs ← np_asarray (tail values);
          index_lines stoi lines' (<[word := coefs]> embeddings_dict)
      | None => index_lines stoi lines' embeddings_dict
      end
  end.

(** [build_datastories_vectors(data)], given the content of the file
    [datastories.twitter.300d.txt] ([None] when it does not exist): the
    dictionary it builds and the count it prints, or [None] when it does
    nothing. *)
Definition build_datastories_vectors (stoi : gmap str nat) (file : option str)
  : res (option (gmap str (list F) * nat)) :=
  match file with
  | Some content =>
      embeddings_dict ← index_lines stoi (file_lines content) ∅;
      Ok (Some (embeddings_dict, size embeddings_dict))
  | None => Ok None
  end.
End Datastories.

(** ** More readings of the trace *)

Section TraceMore.
Context {Tensor Batch : Type}.

(** The training steps of a trace, as (epoch, index in the epoch). *)
Fixpoint step_ids (tr : list (@Event Tensor)) : list (nat * Z) :=
  match tr with
  | [] => []
  | EvStep e i _ :: tr' => (e, i) :: step_ids tr'
  | _ :: tr' => step_ids tr'
  end.

(** The number of reports of training metrics and of validations. *)
Fixpoint n_reports (tr : list (@Event Tensor)) : nat :=
  match tr with
  | [] => 0
  | EvTrain _ _ _ :: tr' => Datatypes.S (n_reports tr')
  | _ :: tr' => n_reports tr'
  end.

Fixpoint n_validations (tr : list (@Event Tensor)) : nat :=
  match tr with
  | [] => 0
  | EvDev _ _ _ _ _ :: tr' => Datatypes.S (n_validations tr')
  | _ :: tr' => n_validations tr'
  end.

(** The validation accuracies of a trace, in the order of the trace. *)
Fixpoint dev_accs (tr : list (@Event Tensor)) : list Q :=
  match tr with
  | [] => []
  | EvDev _ _ a _ _ :: tr' => a :: dev_accs tr'
  | _ :: tr' => dev_accs tr'
  end.

(** The F1 of the newest validation that took a snapshot, of a trace
    given newest first. *)
Fixpoint snapshot_f1 (tr : list (@Event Tensor)) : option Q :=
  match tr with
  | [] => None
  | EvDev _ _ _ f (Some _) :: _ => Some f
  | _ :: tr' => snapshot_f1 tr'
  end.

(** [enumerate(iterator)] from index [i]: the (epoch, index) of every
    batch of an epoch. *)
Fixpoint batch_ids (e : nat) (i : Z) (bs : list Batch) : list (nat * Z) :=
  match bs with
  | [] => []
  | _ :: bs' => (e, i) :: batch_ids e (i + 1) bs'
  end.

(** The batches of [n] epochs from epoch [e] on, in the order of the two
    nested loops. *)
Fixpoint schedule (train_iter : nat -> list Batch) (n e : nat) : list (nat * Z) :=
  match n with
  | O => []
  | Datatypes.S n' => batch_ids e 0 (train_iter e) ++ schedule train_iter n' (Datatypes.S e)
  end.

(** The number of whole windows of [k] batches, summed over [n] epochs
    from epoch [e] on. *)
Fixpoint whole_windows (train_iter : nat -> list Batch) (k : Z) (n e : nat) : Z :=
  match n with
  | O => 0
  | Datatypes.S n' =>
      Z.of_nat (length (train_iter e)) / k
      + whole_windows train_iter k n' (Datatypes.S e)
  end.
End TraceMore.

(** ** More small inputs *)

Module DemoExtra.
(** A run with [print_every = 0]. *)
Definition args_zero : Args := mkArgs 1 0 1 1%Q "12:00:00".

(** Two epochs of five batches, reported every two steps and validated
    every three. *)
Definition args_count : Args := mkArgs 2 2 3 1%Q "12:00:00".
Definition iter_count (e : nat) : list Demo.Batch :=
  [Demo.step 1 1 1 0.1; Demo.step 1 1 1 0.4; Demo.step 1 1 1 0.2;
   Demo.step 1 1 1 0.3; Demo.step 1 1 1 0.5]%Q.

(** A model with a trainable parameter and a frozen one. *)
Definition h0_frozen : heap Q := [mkCell 0%Q None true; mkCell 7%Q None false].
Definition model_frozen : list loc := [0%nat; 1%nat].

Definition train_frozen : res (@State Q unit) :=
  @train Q Demo.Batch unit Demo.forward_backward Qmult Demo.total_norm_of
         Demo.adam_step (fun o => o) Demo.test Demo.iter_f1 Demo.args_f1
         model_frozen h0_frozen tt.

(** A stand-in for the conversion of a string to a number: the strings of
    decimal digits. *)
Fixpoint parse_digits_from (acc : N) (s : str) : option N :=
  match s with
  | [] => Some acc
  | c :: s' =>
      if ((48 <=? c) && (c <=? 57))%N
      then parse_digits_from (10 * acc + (c - 48))%N s'
      else None
  end.

Definition parse_digits (s : str) : option N :=
  match s with
  | [] => None
  | _ => parse_digits_from 0%N s
  end.

Definition text_stoi : gmap str nat :=
  <[s_ "good" := 2%nat]> (<[s_ "bad" := 3%nat]> ∅).

(** An embedding file: [good] twice, [meh] (not in the vocabulary). *)
Definition vectors_file : str :=
  s_ "good 1 2" ++ [NL] ++ s_ "meh 3 3" ++ [NL] ++ s_ "good 4 5" ++ [NL].

(** The same with an empty second line. *)
Definition vectors_file_blank : str :=
  s_ "good 1 2" ++ [NL] ++ [NL] ++ s_ "bad 4 5" ++ [NL].

(** An input file with four data lines, one more than the test set of
    [DemoSubmission] has examples. *)
Definition fin_long : str :=
  DemoSubmission.fin_plain ++ s_ "3" ++ [TAB] ++ s_ "p" ++ [TAB] ++ s_ "q"
    ++ [TAB] ++ s_ "r" ++ [NL].
End DemoExtra.

(** * Properties of the error result *)

Lemma bind_Ok {A B : Type} (m : res A) (k : A -> res B) (b : B) :
  m ≫= k = Ok b -> exists a, m = Ok a /\ k a = Ok b.
Proof. destruct m as [a|e]; simpl; [eauto | discriminate]. Qed.

(** * Properties of traces *)

Section TraceFacts.
Context {Tensor : Type}.
Implicit Types tr pre post : list (@Event Tensor).

Lemma dev_f1s_app tr1 tr2 : dev_f1s (tr1 ++ tr2) = dev_f1s tr1 ++ dev_f1s tr2.
Proof.
  induction tr1 as [|ev tr1 IH]; simpl; [done|].
  destruct ev; simpl; rewrite ?IH; done.
Qed.

Lemma dev_f1s_rev tr : dev_f1s (rev tr) = rev (dev_f1s tr).
Proof.
  induction tr as [|ev tr IH]; simpl; [done|].
  rewrite dev_f1s_app, IH. destruct ev; simpl; rewrite ?app_nil_r; done.
Qed.

(** The best F1 of a trace is below [f] exactly when zero and every F1 of
    the trace are. *)
Lemma best_f1_lt tr (f : Q) :
  Qltb (best_f1 tr) f = true <->
  (0 < f)%Q /\ forall g, g ∈ dev_f1s tr -> (g < f)%Q.
Proof.
  induction tr as [|ev tr IH]; simpl.
  - rewrite Qltb_lt. split; [|tauto]. intros H0. split; [done|].
    intros g Hg. inversion Hg.
  - destruct ev as [| |c dl da g s]; [exact IH|exact IH|].
    destruct (Qltb (best_f1 tr) g) eqn:Hbg.
    + apply Qltb_lt in Hbg. rewrite Qltb_lt. split.
      * intros Hgf.
        assert (Hbf : Qltb (best_f1 tr) f = true).
        { apply Qltb_lt. eapply Qlt_trans; eassumption. }
        apply IH in Hbf as [H0 Hall]. split; [done|].
        intros g' [->|Hg']%elem_of_cons; auto.
      * intros [_ Hall]. apply Hall. left.
    + apply Qltb_nlt in Hbg. rewrite IH. split.
      * intros [H0 Hall]. split; [done|].
        intros g' [->|Hg']%elem_of_cons; [|auto].
        eapply Qle_lt_trans; [exact Hbg|].
        apply Qltb_lt, IH. done.
      * intros [H0 Hall]. split; [done|]. intros g' Hg'. apply Hall. by right.
Qed.

Lemma trace_ok_suffix pe post tr : trace_ok pe (post ++ tr) -> trace_ok pe tr.
Proof.
  induction post as [|ev post IH]; simpl; [done|].
  destruct ev; [exact IH| |]; intros [_ H]; exact (IH H).
Qed.

Lemma steps_reported_split pe nw post pre e i out :
  steps_reported pe nw (post ++ EvStep e i out :: pre) ->
  (i + 1) mod pe = 0 ->
  exists c loss acc,
    (post = [] /\ nw = Some (EvTrain c loss acc)) \/
    (exists post', post = post' ++ [EvTrain c loss acc]).
Proof.
  revert nw. induction post as [|ev post IH]; intros nw; simpl.
  - intros [Hev _] Hm. destruct (Hev Hm) as (c & l & a & ->). eauto 10.
  - intros [_ Hrest] Hm.
    destruct (IH _ Hrest Hm) as (c & l & a & [[-> [= ->]]|[post' ->]]).
    + exists c, l, a. right. exists []. done.
    + exists c, l, a. right. exists (ev :: post'). done.
Qed.

Lemma elem_of_rev_iff {A : Type} (x : A) (l : list A) : x ∈ rev l <-> x ∈ l.
Proof. rewrite !list_elem_of_In. symmetry. apply in_rev. Qed.

(** A trace given newest first and its chronological reading. *)
Lemma rev_split tr before (ev : @Event Tensor) after :
  rev tr = before ++ ev :: after -> tr = rev after ++ ev :: rev before.
Proof.
  intros Hrev. rewrite <- (rev_involutive tr), Hrev.
  rewrite rev_app_distr. simpl. rewrite <- app_assoc. done.
Qed.
End TraceFacts.

(** * Properties of the heap *)

Section HeapFacts.
Context {Tensor : Type}.
Implicit Types h : heap Tensor.

(** In-place updates at the locations [key x] leave the other cells and
    the size of the heap alone. *)
Lemma foldr_alter_lookup_ne {X : Type} (f : X -> Cell Tensor -> Cell Tensor)
      (key : X -> loc) (xs : list X) h (l : loc) :
  (forall x, x ∈ xs -> key x <> l) ->
  foldr (fun x h' => alter (f x) (key x) h') h xs !! l = h !! l.
Proof.
  induction xs as [|x xs IH]; intros Hne; simpl; [done|].
  rewrite list_lookup_alter_ne by (apply Hne; left).
  apply IH. intros y Hy. apply Hne. by right.
Qed.

Lemma foldr_alter_length {X : Type} (f : X -> Cell Tensor -> Cell Tensor)
      (key : X -> loc) (xs : list X) h :
  length (foldr (fun x h' => alter (f x) (key x) h') h xs) = length h.
Proof.
  induction xs as [|x xs IH]; simpl; [done|]. rewrite length_alter. exact IH.
Qed.

Lemma read_data_ext h h' (ls : list loc) :
  (forall l, l ∈ ls -> h' !! l = h !! l) ->
  read_data h' ls = read_data h ls.
Proof.
  unfold read_data, omap.
  induction ls as [|l ls IH]; intros Hext; simpl; [done|].
  rewrite (Hext l) by left. rewrite IH; [done|].
  intros l' Hl'. apply Hext. by right.
Qed.

Lemma read_data_fresh h (vals : list Tensor) :
  read_data (h ++ map (fun d => mkCell d None false) vals)
            (seq (length h) (length vals)) = vals.
Proof.
  revert h. induction vals as [|v vals IH]; intros h; simpl; [done|].
  unfold read_data, omap in *. simpl.
  rewrite list_lookup_middle by done. simpl. f_equal.
  specialize (IH (h ++ [mkCell v None false])).
  rewrite length_app, <- app_assoc in IH. simpl in IH.
  rewrite Nat.add_1_r in IH. exact IH.
Qed.

(** A deep copy holds the values it copied, in cells that did not exist
    before, and leaves the existing cells alone. *)
Lemma deepcopy_spec h (sd : list loc) :
  let (ls, h') := deepcopy h sd in
  read_data h' ls = read_data h sd /\
  (forall l, l ∈ ls -> (length h <= l < length h')%nat) /\
  (forall l, (l < length h)%nat -> h' !! l = h !! l) /\
  (length h <= length h')%nat.
Proof.
  unfold deepcopy. split_and!.
  - apply read_data_fresh.
  - intros l [i [-> Hi]%lookup_seq]%list_elem_of_lookup.
    rewrite length_app, length_map. lia.
  - intros l Hl. by apply lookup_app_l.
  - rewrite length_app. lia.
Qed.
End HeapFacts.
(** * Properties of the training loop *)

Section TrainFacts.
Context {Tensor Batch OptState : Type}.
Variable forward_backward : list Tensor -> Batch -> StepOut * list Tensor.
Variable mul_ : Q -> Tensor -> Tensor.
Variable total_norm_of : list Tensor -> Q.
Variable adam_step : OptState -> list (Tensor * Tensor) -> OptState * list Tensor.
Variable scheduler_step : OptState -> OptState.
Variable test : list Tensor -> Q * Q * Q.
Variable train_iter : nat -> list Batch.
Variable args : Args.
Variable model : list loc.

Let State := (@State Tensor OptState).
Let Event := (@Event Tensor).
Let training_step' :=
  training_step forward_backward mul_ total_norm_of adam_step args model.
Let report' := @report Tensor OptState args.
Let validate' := @validate Tensor OptState test args model.
Let batch_step' :=
  batch_step forward_backward mul_ total_norm_of adam_step test args model.
Let run_batches' :=
  run_batches forward_backward mul_ total_norm_of adam_step test args model.
Let run_epoch' :=
  run_epoch forward_backward mul_ total_norm_of adam_step scheduler_step test
            train_iter args model.
Let run_epochs' :=
  run_epochs forward_backward mul_ total_norm_of adam_step scheduler_step test
             train_iter args model.
Let train' :=
  train forward_backward mul_ total_norm_of adam_step scheduler_step test
        train_iter args model.
Let main' :=
  main forward_backward mul_ total_norm_of adam_step scheduler_step test
       train_iter args model.

(** A property of the state that does not read the optimizer and that every
    pass through the loop body preserves holds when [train] returns. *)
Definition opt_blind (P : State -> Prop) : Prop :=
  forall st o,
    P st ->
    P (mkState (st_heap st) o (st_parameters st) (st_acc st) (st_loss st)
               (st_size st) (st_max_dev_acc st) (st_max_dev_f1 st)
               (st_best_model st) (st_trace st)).

Definition step_stable (ops : list loc) (P : State -> Prop) : Prop :=
  forall e i b st st', P st -> batch_step' ops e i b st = Ok st' -> P st'.

Lemma run_batches_inv ops (P : State -> Prop) :
  step_stable ops P ->
  forall bs e i st st', P st -> run_batches' ops e i bs st = Ok st' -> P st'.
Proof.
  intros Hstep bs. induction bs as [|b bs IH]; intros e i st st' HP Hrun.
  - simpl in Hrun. congruence.
  - simpl in Hrun. apply bind_Ok in Hrun as (st1 & H1 & H2).
    eapply IH; [|exact H2]. eapply Hstep; eassumption.
Qed.

Lemma run_epochs_inv ops (P : State -> Prop) :
  opt_blind P -> step_stable ops P ->
  forall n e st st', P st -> run_epochs' ops n e st = Ok st' -> P st'.
Proof.
  intros Hblind Hstep n. induction n as [|n IH]; intros e st st' HP Hrun.
  - simpl in Hrun. congruence.
  - simpl in Hrun. apply bind_Ok in Hrun as (st1 & H1 & H2).
    eapply IH; [|exact H2].
    eapply run_batches_inv; [exact Hstep| |exact H1].
    apply Hblind, HP.
Qed.

Definition init (h0 : heap Tensor) (o0 : OptState) : State :=
  mkState h0 o0 [] 0%Q 0%Q 0%N 0%Q 0%Q None [].

Lemma train_unfold h0 o0 st :
  train' h0 o0 = Ok st ->
  trainable model h0 <> [] /\
  run_epochs' (trainable model h0) (Z.to_nat (max_epoch args)) 0%nat (init h0 o0) = Ok st.
Proof.
  unfold train', train, PyIter.drain.
  destruct (trainable model h0) eqn:E; [discriminate|]. intros Hrun. split; [done|].
  exact Hrun.
Qed.

Lemma train_inv (P : State -> Prop) h0 o0 st :
  opt_blind P -> step_stable (trainable model h0) P ->
  P (init h0 o0) -> train' h0 o0 = Ok st -> P st.
Proof.
  intros Hblind Hstep Hinit Htrain. apply train_unfold in Htrain as [_ Hrun].
  eapply run_epochs_inv; eassumption.
Qed.

(** *** What one pass through the loop body does *)

Lemma training_step_spec ops e i b st :
  let out := (forward_backward (read_data (st_heap st) model) b).1 in
  let st1 := training_step' ops e i b st in
  st_trace st1 = EvStep e i out :: st_trace st /\
  st_loss st1 = (st_loss st + batch_loss out)%Q /\
  st_acc st1 = (st_acc st + inject_Z (Z.of_N (n_correct out)))%Q /\
  st_size st1 = (st_size st + n_pred out)%N /\
  st_max_dev_acc st1 = st_max_dev_acc st /\
  st_max_dev_f1 st1 = st_max_dev_f1 st /\
  st_best_model st1 = st_best_model st /\
  st_parameters st1 = [].
Proof.
  unfold training_step', training_step.
  destruct (forward_backward _ b) as [out gs]. simpl.
  unfold clip_grad_norm_, PyIter.drain.
  destruct (Qltb _ 1); destruct (optimizer_step _ _ _ _) as [o h3];
    simpl; repeat split; reflexivity.
Qed.

Lemma report_spec i st st' :
  report' i st = Ok st' ->
  print_every args <> 0 /\
  (((i + 1) mod print_every args <> 0 /\ st' = st) \/
   ((i + 1) mod print_every args = 0 /\ st_size st <> 0%N /\
    st' = mkState (st_heap st) (st_opt st) (st_parameters st) 0%Q 0%Q 0%N
                  (st_max_dev_acc st) (st_max_dev_f1 st) (st_best_model st)
                  (EvTrain ((i + 1) / print_every args) (st_loss st)
                           (st_acc st / inject_Z (Z.of_N (st_size st)))%Q
                     :: st_trace st))).
Proof.
  unfold report', report, py_mod, py_floordiv, py_truediv.
  destruct (Z.eqb_spec (print_every args) 0) as [|Hpe]; [discriminate|].
  simpl. destruct (Z.eqb_spec ((i + 1) mod print_every args) 0) as [Hm|Hm].
  - destruct (N.eqb_spec (st_size st) 0) as [|Hsz]; [discriminate|].
    simpl. intros [= <-]. split; [done|]. right. done.
  - intros [= <-]. split; [done|]. left. done.
Qed.

Lemma validate_spec i st st' :
  validate' i st = Ok st' ->
  validate_every args <> 0 /\
  (((i + 1) mod validate_every args <> 0 /\ st' = st) \/
   ((i + 1) mod validate_every args = 0 /\
    exists dev_loss dev_acc dev_f1 snap,
      test (read_data (st_heap st) model) = (dev_loss, dev_acc, dev_f1) /\
      st_trace st' =
        EvDev ((i + 1) / validate_every args) dev_loss dev_acc dev_f1 snap
          :: st_trace st /\
      st_acc st' = st_acc st /\ st_loss st' = st_loss st /\
      st_size st' = st_size st /\ st_parameters st' = st_parameters st /\
      ((Qltb (st_max_dev_f1 st) dev_f1 = true /\
        snap = Some ((deepcopy (st_heap st) (state_dict model)).1,
                     read_data (st_heap st) (state_dict model)) /\
        st_heap st' = (deepcopy (st_heap st) (state_dict model)).2 /\
        st_max_dev_f1 st' = dev_f1 /\
        st_best_model st' = Some (deepcopy (st_heap st) (state_dict model)).1) \/
       (Qltb (st_max_dev_f1 st) dev_f1 = false /\ snap = None /\
        st_heap st' = st_heap st /\
        st_max_dev_f1 st' = st_max_dev_f1 st /\
        st_best_model st' = st_best_model st)))).
Proof.
  unfold validate', validate, py_mod, py_floordiv.
  destruct (Z.eqb_spec (validate_every args) 0) as [|Hve]; [discriminate|].
  simpl. destruct (Z.eqb_spec ((i + 1) mod validate_every args) 0) as [Hm|Hm].
  - destruct (test _) as [[dev_loss dev_acc] dev_f1].
    destruct (Qltb (st_max_dev_f1 st) dev_f1) eqn:Hlt.
    + destruct (deepcopy (st_heap st) (state_dict model)) as [best h] eqn:Hcopy. intros [= <-].
      split; [done|]. right. split; [done|].
      eexists _, _, _, _. split; [reflexivity|]. simpl.
      repeat (split; [reflexivity|]). left. done.
    + intros [= <-]. split; [done|]. right. split; [done|].
      eexists _, _, _, _. split; [reflexivity|]. simpl.
      repeat (split; [reflexivity|]). right. done.
  - intros [= <-]. split; [done|]. left. done.
Qed.

(** *** The bookkeeping invariant *)

Definition book (st : State) : Prop :=
  st_loss st = sum_loss (open_window (st_trace st)) /\
  st_acc st = sum_correct (open_window (st_trace st)) /\
  st_size st = sum_size (open_window (st_trace st)) /\
  st_max_dev_f1 st = best_f1 (st_trace st) /\
  st_best_model st = fst <$> latest_snapshot (st_trace st) /\
  st_parameters st = [] /\
  trace_ok (print_every args) (st_trace st) /\
  steps_reported (print_every args) None (st_trace st).

Lemma steps_reported_weaken pe nw (tr : list Event) :
  steps_reported pe None tr -> steps_reported pe nw tr.
Proof.
  destruct tr as [|ev tr]; simpl; [done|]. intros [Hev Htr]. split; [|done].
  destruct ev; try done. intros Hm. destruct (Hev Hm) as (? & ? & ? & ?).
  discriminate.
Qed.

Lemma book_blind : opt_blind book.
Proof. intros st o H. exact H. Qed.

Lemma book_step ops : step_stable ops book.
Proof.
  intros e i b st st' (Hl & Ha & Hs & Hf & Hb & Hp & Hok & Hrep) Hstep.
  unfold batch_step', batch_step in Hstep.
  apply bind_Ok in Hstep as (st1 & Hreport & Hval).
  pose proof (training_step_spec ops e i b st) as Hts. simpl in Hts.
  fold (training_step' ops e i b st) in Hreport.
  set (st0 := training_step' ops e i b st) in *.
  set (out := (forward_backward (read_data (st_heap st) model) b).1) in *.
  destruct Hts as (Tt & Tl & Ta & Ts & _ & Tf & Tb & Tp).
  assert (Hbook1 : book st1 /\
            exists tl, st_trace st1 = tl ++ [EvStep e i out] ++ st_trace st /\
                       (tl = [] -> (i + 1) mod print_every args <> 0)).
  { apply report_spec in Hreport as [Hpe [[Hm ->]|(Hm & Hsz & ->)]].
    - split; [|exists []; split; [rewrite Tt; done|done]].
      unfold book. rewrite Tt, Tl, Ta, Ts, Tf, Tb, Tp. simpl.
      rewrite <- Hl, <- Ha, <- Hs. split_and!; try done.
      apply steps_reported_weaken, Hrep.
    - split; [|eexists [_]; split; [simpl; rewrite Tt; done|done]].
      unfold book. simpl. rewrite Tt, Tf, Tb, Tp. simpl.
      rewrite <- Hl, <- Ha, <- Hs, <- Tl, <- Ta, <- Ts. split_and!; try done.
      + eauto 10.
      + eauto.
      + apply steps_reported_weaken, Hrep. }
  clear Hreport.
  destruct Hbook1 as [(Hl1 & Ha1 & Hs1 & Hf1 & Hb1 & Hp1 & Hok1 & Hrep1) _].
  apply validate_spec in Hval
    as [Hve [[Hm ->]|(Hm & dl & da & df & snap & _ & Vt & Va & Vl & Vs & Vp & Hcase)]].
  - unfold book. done.
  - unfold book. rewrite Vt, Va, Vl, Vs, Vp. simpl.
    assert (Hrep' : steps_reported (print_every args)
                      (Some (EvDev ((i + 1) / validate_every args) dl da df snap))
                      (st_trace st1)).
    { apply steps_reported_weaken, Hrep1. }
    destruct Hcase as [(Hlt & -> & _ & -> & ->)|(Hlt & -> & _ & -> & ->)];
      rewrite <- Hf1, Hlt; simpl; split_and!; try done; eauto.
Qed.

Lemma book_init h0 o0 : book (init h0 o0).
Proof. unfold book. simpl. done. Qed.

Lemma train_book h0 o0 st : train' h0 o0 = Ok st -> book st.
Proof.
  apply train_inv; [apply book_blind|apply book_step|apply book_init].
Qed.

(** *** Checkpoint selection *)

(** C1. The snapshot is taken at a validation if and only if its F1 is
    strictly above zero, the initial best, and strictly above the F1 of
    every earlier validation of the run; the best F1 kept is the running
    maximum from zero; and the [best_model] that [train] returns is the
    snapshot of the last validation that took one ([None] if none did). *)
Theorem best_checkpoint_strict_running_maxima h0 o0 st :
  train' h0 o0 = Ok st ->
  (forall before c dev_loss dev_acc dev_f1 snap after,
      history st = before ++ EvDev c dev_loss dev_acc dev_f1 snap :: after ->
      (is_Some snap <->
       (0 < dev_f1)%Q /\ forall g, g ∈ dev_f1s before -> (g < dev_f1)%Q)) /\
  st_max_dev_f1 st = best_f1 (st_trace st) /\
  st_best_model st = fst <$> latest_snapshot (st_trace st).
Proof.
  intros Htrain.
  destruct (train_book _ _ _ Htrain) as (_ & _ & _ & Hf & Hb & _ & Hok & _).
  split; [|done].
  intros before c dl da f snap after Hhist.
  apply rev_split in Hhist. rewrite Hhist in Hok.
  apply trace_ok_suffix in Hok. simpl in Hok. destruct Hok as [Hsnap _].
  rewrite Hsnap, best_f1_lt, dev_f1s_rev.
  split; intros [H0 Hall]; (split; [done|]); intros g Hg; apply Hall;
    first [apply elem_of_rev_iff; done | apply elem_of_rev_iff in Hg; done].
Qed.

(** *** Reports of the training metrics *)

(** C3, as the code has it. A report is emitted exactly after the steps
    whose index within the epoch, plus one, is a multiple of [print_every].
    It carries the sum (not the average) of the batch losses accumulated
    since the previous report and the accuracy: the correct predictions
    divided by the predictions, over the same steps. Emitting it resets
    the three accumulators to zero. *)
Theorem report_every_print_every_steps h0 o0 st :
  train' h0 o0 = Ok st ->
  (forall before c loss acc after,
      history st = before ++ EvTrain c loss acc :: after ->
      let w := open_window (rev before) in
      loss = sum_loss w /\
      sum_size w <> 0%N /\
      acc = (sum_correct w / inject_Z (Z.of_N (sum_size w)))%Q /\
      exists before' e i out,
        before = before' ++ [EvStep e i out] /\
        (i + 1) mod print_every args = 0 /\
        c = (i + 1) / print_every args) /\
  (forall before e i out after,
      history st = before ++ EvStep e i out :: after ->
      (i + 1) mod print_every args = 0 ->
      exists c loss acc after', after = EvTrain c loss acc :: after') /\
  (forall i st1 st2,
      report' i st1 = Ok st2 ->
      (i + 1) mod print_every args = 0 ->
      st_loss st2 = 0%Q /\ st_acc st2 = 0%Q /\ st_size st2 = 0%N).
Proof.
  intros Htrain.
  destruct (train_book _ _ _ Htrain) as (_ & _ & _ & _ & _ & _ & Hok & Hrep).
  split_and!.
  - intros before c loss acc after Hhist w.
    apply rev_split in Hhist. rewrite Hhist in Hok.
    apply trace_ok_suffix in Hok. simpl in Hok.
    destruct Hok as [(Hl & Hs & Ha & e & i & out & tr'' & Htr & Hm & Hc) _].
    split_and!; try done.
    exists (rev tr''), e, i, out. split; [|done].
    rewrite <- (rev_involutive before), Htr. done.
  - intros before e i out after Hhist Hm.
    apply rev_split in Hhist. rewrite Hhist in Hrep.
    destruct (steps_reported_split _ _ _ _ _ _ _ Hrep Hm)
      as (c & l & a & [[_ [=]]|[post' Hpost]]).
    exists c, l, a, (rev post').
    rewrite <- (rev_involutive after), Hpost, rev_app_distr. done.
  - intros i st1 st2 Hreport Hm.
    apply report_spec in Hreport as [_ [[Hm' _]|(_ & _ & ->)]]; done.
Qed.

(** C4, as the code has it. Nothing is emitted and nothing is reset where
    an epoch ends: a report only ever follows a step whose index within
    its epoch, plus one, is a multiple of [print_every]. The accumulators
    are initialised once, before the first epoch, so every report covers
    all the steps since the previous report, those of earlier epochs
    included; only the steps after the last report of the run go
    unreported: they are what the accumulators hold when [train]
    returns. *)
Theorem partial_window_carries_over h0 o0 st :
  train' h0 o0 = Ok st ->
  (forall before c loss acc after,
      history st = before ++ EvTrain c loss acc :: after ->
      (exists before' e i out,
          before = before' ++ [EvStep e i out] /\
          (i + 1) mod print_every args = 0) /\
      loss = sum_loss (open_window (rev before)) /\
      (acc * inject_Z (Z.of_N (sum_size (open_window (rev before))))
       == sum_correct (open_window (rev before)))%Q) /\
  st_loss st = sum_loss (open_window (st_trace st)) /\
  st_acc st = sum_correct (open_window (st_trace st)) /\
  st_size st = sum_size (open_window (st_trace st)).
Proof.
  intros Htrain.
  destruct (train_book _ _ _ Htrain) as (Hl & Ha & Hs & _ & _ & _ & Hok & _).
  split_and!; try done.
  intros before c loss acc after Hhist.
  apply rev_split in Hhist. rewrite Hhist in Hok.
  apply trace_ok_suffix in Hok. simpl in Hok.
  destruct Hok as [(Hloss & Hsz & Hacc & e & i & out & tr'' & Htr & Hm & Hc) _].
  split_and!; try done.
  - exists (rev tr''), e, i, out. split; [|done].
    rewrite <- (rev_involutive before), Htr. done.
  - rewrite Hacc. field. intros H0.
    apply Hsz. unfold Qeq in H0. simpl in H0. lia.
Qed.

(** *** When the run completes *)

Section Total.
Hypothesis print_every_nonzero : print_every args <> 0.
Hypothesis validate_every_nonzero : validate_every args <> 0.

Lemma batch_step_total ops e i b st :
  nonempty_batch forward_backward b -> exists st', batch_step' ops e i b st = Ok st'.
Proof.
  intros Hb. unfold batch_step', batch_step.
  pose proof (training_step_spec ops e i b st) as Hts. simpl in Hts.
  fold (training_step' ops e i b st).
  set (st0 := training_step' ops e i b st) in *.
  destruct Hts as (_ & _ & _ & Hsz & _).
  assert (Hreport : exists st1, report args i st0 = Ok st1).
  { unfold report, py_mod, py_floordiv, py_truediv.
    destruct (Z.eqb_spec (print_every args) 0) as [|_]; [done|]. simpl.
    destruct (_ =? 0); [|eauto].
    destruct (N.eqb_spec (st_size st0) 0) as [H0|_]; [|simpl; eauto].
    exfalso. rewrite Hsz in H0.
    apply (Hb (read_data (st_heap st) model)). lia. }
  destruct Hreport as [st1 ->]. simpl.
  unfold validate, py_mod, py_floordiv.
  destruct (Z.eqb_spec (validate_every args) 0) as [|_]; [done|]. simpl.
  destruct (_ =? 0); [|eauto].
  destruct (test _) as [[dl da] df]. destruct (Qltb _ df); [|eauto].
  destruct (deepcopy (st_heap st1) (state_dict model)). eauto.
Qed.

Lemma run_batches_total ops e bs :
  Forall (nonempty_batch forward_backward) bs ->
  forall i st, exists st', run_batches' ops e i bs st = Ok st'.
Proof.
  induction 1 as [|b bs Hb _ IH]; intros i st; simpl; [eauto|].
  destruct (batch_step_total ops e i b st Hb) as [st1 H1].
  unfold run_batches', batch_step' in *. simpl. rewrite H1. simpl. apply IH.
Qed.

Hypothesis batches_nonempty : forall e, Forall (nonempty_batch forward_backward) (train_iter e).

Lemma run_epochs_total ops n : forall e st, exists st', run_epochs' ops n e st = Ok st'.
Proof.
  induction n as [|n IH]; intros e st; simpl; [eauto|].
  unfold run_epochs', run_epoch. simpl.
  match goal with
  | |- exists st', (?m ≫= _) = _ =>
      let H := fresh in
      assert (H : exists st1, m = Ok st1)
        by (apply run_batches_total, batches_nonempty);
      destruct H as [st1 ->]
  end.
  simpl. apply IH.
Qed.

Lemma train_total h0 o0 : trainable model h0 <> [] -> exists st, train' h0 o0 = Ok st.
Proof.
  intros Hne. unfold train', train, PyIter.drain.
  destruct (trainable model h0) as [|l ls] eqn:E; [done|].
  apply run_epochs_total.
Qed.
End Total.

(** *** Runs without an improvement *)

Lemma batch_step_no_dev ops e i b st st' :
  0 <= i -> i + 1 < validate_every args ->
  batch_step' ops e i b st = Ok st' ->
  dev_f1s (st_trace st') = dev_f1s (st_trace st).
Proof.
  intros Hi Hlt Hstep. unfold batch_step', batch_step in Hstep.
  apply bind_Ok in Hstep as (st1 & Hreport & Hval).
  pose proof (training_step_spec ops e i b st) as Hts. simpl in Hts.
  fold (training_step' ops e i b st) in Hreport.
  destruct Hts as (Tt & _).
  apply validate_spec in Hval as [_ [[_ ->]|(Hm & _)]].
  - apply report_spec in Hreport as [_ [[_ ->]|(_ & _ & ->)]];
      simpl; rewrite Tt; done.
  - rewrite Z.mod_small in Hm by lia. lia.
Qed.

Lemma run_batches_no_dev ops e bs :
  forall i st st',
    0 <= i -> i + Z.of_nat (length bs) < validate_every args ->
    run_batches' ops e i bs st = Ok st' ->
    dev_f1s (st_trace st') = dev_f1s (st_trace st).
Proof.
  induction bs as [|b bs IH]; intros i st st' Hi Hlt Hrun; simpl in Hrun.
  - congruence.
  - apply bind_Ok in Hrun as (st1 & H1 & H2).
    simpl length in Hlt.
    rewrite (IH (i + 1) st1 st'); [|lia|lia|exact H2].
    eapply batch_step_no_dev; [exact Hi| |exact H1]. lia.
Qed.

Lemma run_epochs_no_dev ops n :
  forall e st st',
    (forall e', (e <= e' < e + n)%nat ->
                Z.of_nat (length (train_iter e')) < validate_every args) ->
    run_epochs' ops n e st = Ok st' ->
    dev_f1s (st_trace st') = dev_f1s (st_trace st).
Proof.
  induction n as [|n IH]; intros e st st' Hshort Hrun; simpl in Hrun.
  - congruence.
  - apply bind_Ok in Hrun as (st1 & H1 & H2).
    rewrite (IH (S e) st1 st'); [|intros; apply Hshort; lia|exact H2].
    unfold run_epoch in H1.
    apply run_batches_no_dev in H1; [exact H1|done|].
    apply Hshort. lia.
Qed.

Lemma best_f1_none (tr : list Event) :
  (forall f, f ∈ dev_f1s tr -> ~ (0 < f)%Q) ->
  trace_ok (print_every args) tr ->
  best_f1 tr = 0%Q /\ latest_snapshot tr = None.
Proof.
  induction tr as [|ev tr IH]; simpl; [done|].
  destruct ev as [| |c dl da f s]; intros Hall Hok.
  - apply IH; [done|done].
  - apply IH; [done|tauto].
  - destruct Hok as [Hs Hok].
    destruct IH as [Hb Hn]; [intros; apply Hall; by right|done|].
    rewrite Hb in *.
    assert (Hlt : Qltb 0 f = false).
    { apply not_true_iff_false. rewrite Qltb_lt. apply Hall. left. }
    rewrite Hlt in *. split; [done|].
    destruct s as [s|]; [|done].
    destruct Hs as [Hs _]. discriminate Hs. eauto.
Qed.

(** C9. If no validation of the run yields an F1 above zero (in particular
    if every epoch has fewer batches than [validate_every], so that no
    validation takes place), [train] returns [best_model = None] and
    [max_dev_f1 = 0], and [main] pickles that [None] into the checkpoint
    file. *)
Theorem no_improvement_saves_none h0 o0 :
  print_every args <> 0 ->
  validate_every args <> 0 ->
  (forall e, Forall (nonempty_batch forward_backward) (train_iter e)) ->
  trainable model h0 <> [] ->
  ((forall e, (e < Z.to_nat (max_epoch args))%nat ->
              Z.of_nat (length (train_iter e)) < validate_every args) \/
   (forall st, train' h0 o0 = Ok st ->
               forall f, f ∈ dev_f1s (st_trace st) -> ~ (0 < f)%Q)) ->
  exists st,
    train' h0 o0 = Ok st /\
    st_best_model st = None /\
    st_max_dev_f1 st = 0%Q /\
    main' h0 o0 =
      Ok (("saved_models/"
             +:+ ("SAN4EMO_" +:+ model_time args +:+ "_" +:+ "0.0000" +:+ ".pt"))%string,
          None).
Proof.
  intros Hpe Hve Hsz Hne Hcase.
  destruct (train_total Hpe Hve Hsz h0 o0 Hne) as [st Htrain].
  exists st. split; [done|].
  assert (Hall : forall f, f ∈ dev_f1s (st_trace st) -> ~ (0 < f)%Q).
  { destruct Hcase as [Hshort|Hall]; [|eauto].
    destruct (train_unfold _ _ _ Htrain) as [_ Hrun].
    apply run_epochs_no_dev in Hrun; [|intros; apply Hshort; lia].
    rewrite Hrun. simpl. intros f Hf. inversion Hf. }
  destruct (train_book _ _ _ Htrain) as (_ & _ & _ & Hf & Hb & _ & Hok & _).
  destruct (best_f1_none _ Hall Hok) as [Hbest Hnone].
  rewrite Hnone in Hb. rewrite Hbest in Hf. simpl in Hb.
  split_and!; try done.
  unfold main', main. fold train'. rewrite Htrain. simpl. rewrite Hf, Hb. done.
Qed.

(** *** Snapshots and in-place updates *)

(** The parameters of the model exist in the heap; the newest snapshot
    holds the values recorded when it was taken, in cells that are not
    parameters of the model. *)
Definition snap_ok (st : State) : Prop :=
  Forall (fun l => (l < length (st_heap st))%nat) model /\
  st_parameters st = [] /\
  forall ls vs,
    latest_snapshot (st_trace st) = Some (ls, vs) ->
    read_data (st_heap st) ls = vs /\
    forall l, l ∈ ls -> (l < length (st_heap st))%nat /\ l ∉ model.

(** A training step writes to the parameters of the model only. *)
Lemma training_step_heap ops e i b st :
  st_parameters st = [] -> ops ⊆ model ->
  length (st_heap (training_step' ops e i b st)) = length (st_heap st) /\
  forall l, l ∉ model ->
            st_heap (training_step' ops e i b st) !! l = st_heap st !! l.
Proof.
  intros Hp Hops. unfold training_step', training_step.
  destruct (forward_backward _ b) as [out gs]. rewrite Hp.
  unfold clip_grad_norm_, PyIter.drain. simpl.
  assert (Hclip : forall (c : bool) (h : heap Tensor),
             (if c then (h, @nil loc) else (h, [])) = (h, [])) by (by intros []).
  rewrite Hclip. unfold optimizer_step.
  destruct (adam_step _ _) as [o ds]. simpl. unfold backward. split.
  - rewrite (foldr_alter_length (fun ld => set_data ld.2) fst).
    apply (foldr_alter_length
             (fun lg c => if requires_grad c then set_grad (Some lg.2) c else c) fst).
  - intros l Hl.
    rewrite (foldr_alter_lookup_ne (fun ld => set_data ld.2) fst).
    + apply (foldr_alter_lookup_ne
               (fun lg c => if requires_grad c then set_grad (Some lg.2) c else c) fst).
      intros [l' g] Hin%elem_of_zip_l. simpl. intros ->. done.
    + intros [l' d] Hin%elem_of_zip_l. simpl. intros ->.
      apply list_elem_of_In, filter_In in Hin as [Hin _].
      apply Hl, Hops, list_elem_of_In, Hin.
Qed.

Lemma snap_blind : opt_blind snap_ok.
Proof. intros st o H. exact H. Qed.

Lemma snap_step ops : ops ⊆ model -> step_stable ops snap_ok.
Proof.
  intros Hops e i b st st' (Hmodel & Hp & Hsnap) Hstep.
  unfold batch_step', batch_step in Hstep.
  apply bind_Ok in Hstep as (st1 & Hreport & Hval).
  pose proof (training_step_spec ops e i b st) as Hts. simpl in Hts.
  destruct (training_step_heap ops e i b st Hp Hops) as [Hlen Hframe].
  fold (training_step' ops e i b st) in Hreport.
  set (st0 := training_step' ops e i b st) in *.
  destruct Hts as (Tt & _ & _ & _ & _ & _ & _ & Tp).
  assert (H0 : snap_ok st0).
  { split_and!.
    - rewrite Hlen. exact Hmodel.
    - exact Tp.
    - rewrite Tt. simpl. intros ls vs Hls.
      destruct (Hsnap ls vs Hls) as [Hread Hfresh]. split.
      + rewrite <- Hread. apply read_data_ext.
        intros l Hl. apply Hframe, Hfresh, Hl.
      + intros l Hl. rewrite Hlen. apply Hfresh, Hl. }
  assert (H1 : snap_ok st1).
  { apply report_spec in Hreport as [_ [[_ ->]|(_ & _ & ->)]]; [done|].
    exact H0. }
  clear Hreport H0. destruct H1 as (Hmodel1 & Hp1 & Hsnap1).
  apply validate_spec in Hval
    as [_ [[_ ->]|(_ & dl & da & df & snap & _ & Vt & _ & _ & _ & Vp & Hcase)]].
  { done. }
  pose proof (deepcopy_spec (st_heap st1) (state_dict model)) as Hcopy.
  destruct (deepcopy (st_heap st1) (state_dict model)) as [best h'].
  destruct Hcopy as (Hread & Hfresh & Hold & Hle). simpl in Hcase.
  destruct Hcase as [(_ & -> & Vh & _ & _)|(_ & -> & Vh & _ & _)].
  - split_and!.
    + rewrite Vh. eapply Forall_impl; [exact Hmodel1|]. simpl. lia.
    + congruence.
    + rewrite Vt, Vh. simpl. intros ls vs [= <- <-]. split; [done|].
      intros l Hl. destruct (Hfresh l Hl) as [Hge Hlt]. split; [done|].
      intros Hin. rewrite Forall_forall in Hmodel1.
      specialize (Hmodel1 l Hin). lia.
  - split_and!.
    + rewrite Vh. done.
    + congruence.
    + rewrite Vt, Vh. simpl. exact Hsnap1.
Qed.

Lemma trainable_model (h0 : heap Tensor) : trainable model h0 ⊆ model.
Proof.
  intros l Hl. unfold trainable in Hl.
  apply list_elem_of_In, filter_In in Hl as [Hl _]. apply list_elem_of_In, Hl.
Qed.

Lemma train_snap h0 o0 st :
  Forall (fun l => (l < length h0)%nat) model ->
  train' h0 o0 = Ok st -> snap_ok st.
Proof.
  intros Hmodel. apply train_inv.
  - apply snap_blind.
  - apply snap_step, trainable_model.
  - split_and!; [done|done|]. simpl. discriminate.
Qed.

(** C7. The snapshot is an independent copy: whatever training steps
    follow it, the [best_model] that [train] returns is the newest
    snapshot, its tensors are no parameters of the model, they still hold
    the values the parameters had at the moment the snapshot was taken, and
    these values are what [main] saves. *)
Theorem snapshot_is_independent h0 o0 st ls vs :
  Forall (fun l => (l < length h0)%nat) model ->
  train' h0 o0 = Ok st ->
  latest_snapshot (st_trace st) = Some (ls, vs) ->
  st_best_model st = Some ls /\
  read_data (st_heap st) ls = vs /\
  (forall l, l ∈ ls -> l ∉ model) /\
  exists path, main' h0 o0 = Ok (path, Some vs).
Proof.
  intros Hmodel Htrain Hls.
  destruct (train_book _ _ _ Htrain) as (_ & _ & _ & _ & Hb & _).
  destruct (train_snap _ _ _ Hmodel Htrain) as (_ & _ & Hsnap).
  destruct (Hsnap ls vs Hls) as [Hread Hfresh].
  rewrite Hls in Hb. simpl in Hb. split_and!; try done.
  - intros l Hl. apply Hfresh, Hl.
  - unfold main', main. fold train'. rewrite Htrain. simpl.
    rewrite Hb. simpl. rewrite Hread. eauto.
Qed.

(** *** Gradient clipping *)

(** In-place updates that keep the gradient of every cell keep every
    gradient of the heap. *)
Lemma foldr_alter_grad {X : Type} (f : X -> Cell Tensor -> Cell Tensor)
      (key : X -> loc) (xs : list X) (h : heap Tensor) (l : loc) :
  (forall x c, grad (f x c) = grad c) ->
  foldr (fun x h' => alter (f x) (key x) h') h xs !! l ≫= grad = h !! l ≫= grad.
Proof.
  intros Hf. induction xs as [|x xs IH]; simpl; [done|].
  rewrite list_lookup_alter.
  destruct (decide (key x = l)) as [<-|_]; [|exact IH].
  rewrite <- IH. destruct (foldr _ h xs !! key x); simpl; [apply Hf|done].
Qed.

Lemma read_grad_ext (h h' : heap Tensor) (ls : list loc) :
  (forall l, h' !! l ≫= grad = h !! l ≫= grad) ->
  read_grad h' ls = read_grad h ls.
Proof.
  intros Hext. unfold read_grad, omap.
  induction ls as [|l ls IH]; simpl; [done|]. rewrite Hext, IH. done.
Qed.

(** Once the [filter] object is consumed, [clip_grad_norm_] is handed no
    parameter and changes nothing. *)
Lemma clip_grad_norm_exhausted max_norm (h : heap Tensor) :
  clip_grad_norm_ mul_ total_norm_of [] max_norm h = (h, []).
Proof. unfold clip_grad_norm_, PyIter.drain. simpl. by destruct (Qltb _ 1). Qed.

(** In a run of [train] the [filter] object is consumed before the first
    step (line 38), so every step leaves the gradients as the backward
    pass wrote them. *)
Lemma training_step_unclipped ops e i b st :
  st_parameters st = [] ->
  read_grad (st_heap (training_step' ops e i b st)) model =
  read_grad (backward model
                      (forward_backward (read_data (st_heap st) model) b).2
                      (st_heap st)) model.
Proof.
  intros Hp. unfold training_step', training_step.
  destruct (forward_backward _ b) as [out gs]. rewrite Hp.
  rewrite clip_grad_norm_exhausted. unfold optimizer_step.
  destruct (adam_step _ _) as [o ds]. simpl.
  apply read_grad_ext. intros l.
  apply (foldr_alter_grad (fun ld => set_data ld.2) fst). done.
Qed.

(** *** The schedule of steps, reports and validations *)

Lemma step_ids_app (tr1 tr2 : list Event) :
  step_ids (tr1 ++ tr2) = step_ids tr1 ++ step_ids tr2.
Proof.
  induction tr1 as [|ev tr1 IH]; simpl; [done|]. destruct ev; simpl; by rewrite IH.
Qed.

Lemma step_ids_rev (tr : list Event) : step_ids (rev tr) = rev (step_ids tr).
Proof.
  induction tr as [|ev tr IH]; simpl; [done|].
  rewrite step_ids_app, IH. destruct ev; simpl; by rewrite ?app_nil_r.
Qed.

Lemma n_reports_rev (tr : list Event) : n_reports (rev tr) = n_reports tr.
Proof.
  assert (Happ : forall a b : list Event, n_reports (a ++ b) = (n_reports a + n_reports b)%nat).
  { intros a b. induction a as [|ev a IH]; simpl; [done|].
    destruct ev; simpl; rewrite IH; done. }
  induction tr as [|ev tr IH]; simpl; [done|].
  rewrite Happ, IH. destruct ev; simpl; lia.
Qed.

Lemma n_validations_rev (tr : list Event) : n_validations (rev tr) = n_validations tr.
Proof.
  assert (Happ : forall a b : list Event,
             n_validations (a ++ b) = (n_validations a + n_validations b)%nat).
  { intros a b. induction a as [|ev a IH]; simpl; [done|].
    destruct ev; simpl; rewrite IH; done. }
  induction tr as [|ev tr IH]; simpl; [done|].
  rewrite Happ, IH. destruct ev; simpl; lia.
Qed.

(** What one pass through the loop body adds to the trace. *)
Lemma batch_step_trace ops e i b st st' :
  batch_step' ops e i b st = Ok st' ->
  print_every args <> 0 /\ validate_every args <> 0 /\
  step_ids (st_trace st') = (e, i) :: step_ids (st_trace st) /\
  Z.of_nat (n_reports (st_trace st')) =
    Z.of_nat (n_reports (st_trace st))
    + (if (i + 1) mod print_every args =? 0 then 1 else 0) /\
  Z.of_nat (n_validations (st_trace st')) =
    Z.of_nat (n_validations (st_trace st))
    + (if (i + 1) mod validate_every args =? 0 then 1 else 0).
Proof.
  intros Hstep. unfold batch_step', batch_step in Hstep.
  apply bind_Ok in Hstep as (st1 & Hreport & Hval).
  pose proof (training_step_spec ops e i b st) as Hts. simpl in Hts.
  fold (training_step' ops e i b st) in Hreport.
  destruct Hts as (Tt & _).
  apply report_spec in Hreport as [Hpe Hreport].
  apply validate_spec in Hval as [Hve Hval].
  split; [done|]. split; [done|].
  assert (H1 : step_ids (st_trace st1) = (e, i) :: step_ids (st_trace st) /\
               Z.of_nat (n_reports (st_trace st1)) =
                 Z.of_nat (n_reports (st_trace st))
                 + (if (i + 1) mod print_every args =? 0 then 1 else 0) /\
               n_validations (st_trace st1) = n_validations (st_trace st)).
  { destruct Hreport as [[Hm ->]|(Hm & _ & ->)]; simpl; rewrite Tt; simpl.
    - destruct (Z.eqb_spec ((i + 1) mod print_every args) 0); [done|].
      split_and!; [done|lia|done].
    - rewrite Hm. simpl. split_and!; [done|lia|done]. }
  destruct H1 as (Hs1 & Hr1 & Hv1).
  destruct Hval as [[Hm ->]|(Hm & dl & da & df & snap & _ & Vt & _)].
  - destruct (Z.eqb_spec ((i + 1) mod validate_every args) 0); [done|].
    split_and!; [done|done|]. rewrite Hv1. lia.
  - rewrite Vt, Hm. simpl. split_and!; [done|done|]. rewrite Hv1. lia.
Qed.

(** The number of indices [j] among the [n] indices from [i] on such that
    [j + 1] is a multiple of [k]. *)
Fixpoint count_mult (k i : Z) (n : nat) : Z :=
  match n with
  | O => 0
  | Datatypes.S n' => (if (i + 1) mod k =? 0 then 1 else 0) + count_mult k (i + 1) n'
  end.

Lemma div_succ (k i : Z) :
  0 < k -> 0 <= i ->
  (i + 1) / k = i / k + (if (i + 1) mod k =? 0 then 1 else 0).
Proof.
  intros Hk Hi.
  pose proof (Z.div_mod i k ltac:(lia)) as Hdm.
  pose proof (Z.mod_pos_bound i k Hk) as Hr.
  destruct (Z.eq_dec (i mod k + 1) k) as [Heq|Hne].
  - rewrite <- (Z.div_unique (i + 1) k (i / k + 1) 0) by lia.
    rewrite <- (Z.mod_unique (i + 1) k (i / k + 1) 0) by lia. simpl. lia.
  - rewrite <- (Z.div_unique (i + 1) k (i / k) (i mod k + 1)) by lia.
    rewrite <- (Z.mod_unique (i + 1) k (i / k) (i mod k + 1)) by lia.
    destruct (Z.eqb_spec (i mod k + 1) 0); lia.
Qed.

Lemma count_mult_div (k : Z) (n : nat) :
  0 < k -> forall i, 0 <= i -> count_mult k i n = (i + Z.of_nat n) / k - i / k.
Proof.
  intros Hk. induction n as [|n IH]; intros i Hi; simpl count_mult.
  - rewrite Z.add_0_r. lia.
  - rewrite IH by lia. rewrite (div_succ k i Hk Hi).
    replace (i + 1 + Z.of_nat n) with (i + Z.of_nat (Datatypes.S n)) by lia. lia.
Qed.

Lemma run_batches_trace ops e bs :
  forall i st st',
    run_batches' ops e i bs st = Ok st' ->
    step_ids (st_trace st') = rev (batch_ids e i bs) ++ step_ids (st_trace st) /\
    Z.of_nat (n_reports (st_trace st')) =
      Z.of_nat (n_reports (st_trace st)) + count_mult (print_every args) i (length bs) /\
    Z.of_nat (n_validations (st_trace st')) =
      Z.of_nat (n_validations (st_trace st))
      + count_mult (validate_every args) i (length bs).
Proof.
  induction bs as [|b bs IH]; intros i st st' Hrun; simpl in Hrun.
  - injection Hrun as <-. simpl. split_and!; [done|lia|lia].
  - apply bind_Ok in Hrun as (st1 & H1 & H2).
    apply batch_step_trace in H1 as (_ & _ & Hs & Hr & Hv).
    destruct (IH _ _ _ H2) as (Hs' & Hr' & Hv').
    simpl. rewrite Hs', Hs, Hr', Hr, Hv', Hv, <- app_assoc. simpl.
    split_and!; [done|lia|lia].
Qed.

Lemma run_epochs_steps ops n :
  forall e st st',
    run_epochs' ops n e st = Ok st' ->
    step_ids (st_trace st') = rev (schedule train_iter n e) ++ step_ids (st_trace st).
Proof.
  induction n as [|n IH]; intros e st st' Hrun; simpl in Hrun.
  - injection Hrun as <-. done.
  - apply bind_Ok in Hrun as (st1 & H1 & H2).
    unfold run_epoch in H1. apply run_batches_trace in H1 as (Hs & _).
    simpl in Hs. rewrite (IH _ _ _ H2), Hs. simpl.
    rewrite rev_app_distr, <- app_assoc. done.
Qed.

Lemma run_epochs_counts ops n :
  0 < print_every args -> 0 < validate_every args ->
  forall e st st',
    run_epochs' ops n e st = Ok st' ->
    Z.of_nat (n_reports (st_trace st')) =
      Z.of_nat (n_reports (st_trace st))
      + whole_windows train_iter (print_every args) n e /\
    Z.of_nat (n_validations (st_trace st')) =
      Z.of_nat (n_validations (st_trace st))
      + whole_windows train_iter (validate_every args) n e.
Proof.
  intros Hpe Hve. induction n as [|n IH]; intros e st st' Hrun; simpl in Hrun.
  - injection Hrun as <-. simpl. split; lia.
  - apply bind_Ok in Hrun as (st1 & H1 & H2).
    unfold run_epoch in H1. apply run_batches_trace in H1 as (_ & Hr & Hv).
    simpl in Hr, Hv. destruct (IH _ _ _ H2) as (Hr' & Hv').
    rewrite !count_mult_div in * by lia.
    rewrite Z.add_0_l, Z.div_0_l in Hr, Hv by lia. simpl. split; lia.
Qed.

(** X1. Every batch of every epoch is trained on exactly once, in the
    order of the two loops, the index restarting at 0 in each epoch; with
    [max_epoch <= 0] there is no step at all. *)
Theorem every_batch_trained_once h0 o0 st :
  train' h0 o0 = Ok st ->
  step_ids (history st) = schedule train_iter (Z.to_nat (max_epoch args)) 0.
Proof.
  intros Htrain. apply train_unfold in Htrain as [_ Hrun].
  unfold history. rewrite step_ids_rev.
  rewrite (run_epochs_steps _ _ _ _ _ Hrun). simpl.
  rewrite app_nil_r. apply rev_involutive.
Qed.

(** X2. With positive intervals, a run emits one report per whole window
    of [print_every] batches of each epoch and one validation per whole
    window of [validate_every] batches of each epoch: the batches left
    over at the end of an epoch trigger neither. *)
Theorem reports_and_validations_count h0 o0 st :
  0 < print_every args -> 0 < validate_every args ->
  train' h0 o0 = Ok st ->
  Z.of_nat (n_reports (history st))
    = whole_windows train_iter (print_every args) (Z.to_nat (max_epoch args)) 0 /\
  Z.of_nat (n_validations (history st))
    = whole_windows train_iter (validate_every args) (Z.to_nat (max_epoch args)) 0.
Proof.
  intros Hpe Hve Htrain. apply train_unfold in Htrain as [_ Hrun].
  unfold history. rewrite n_reports_rev, n_validations_rev.
  destruct (run_epochs_counts _ _ Hpe Hve _ _ _ Hrun) as [Hr Hv].
  simpl in Hr, Hv. lia.
Qed.

(** *** The best validation accuracy *)

Lemma validate_acc i st st' :
  validate' i st = Ok st' ->
  st' = st \/
  exists c dl da df s,
    st_trace st' = EvDev c dl da df s :: st_trace st /\
    st_max_dev_acc st' =
      if Qltb (st_max_dev_acc st) da then da else st_max_dev_acc st.
Proof.
  unfold validate', validate, py_mod, py_floordiv.
  destruct (validate_every args =? 0); [discriminate|]. simpl.
  destruct (_ =? 0); [|intros [= <-]; by left].
  destruct (test _) as [[dl da] df].
  destruct (Qltb (st_max_dev_f1 st) df).
  - destruct (deepcopy (st_heap st) (state_dict model)) as [best h].
    intros [= <-]. right. eexists _, _, _, _, _. simpl. done.
  - intros [= <-]. right. eexists _, _, _, _, _. simpl. done.
Qed.

Definition acc_ok (st : State) : Prop :=
  (forall a, a ∈ dev_accs (st_trace st) -> (a <= st_max_dev_acc st)%Q) /\
  (st_max_dev_acc st = 0%Q \/ st_max_dev_acc st ∈ dev_accs (st_trace st)).

Lemma acc_blind : opt_blind acc_ok.
Proof. intros st o H. exact H. Qed.

Lemma acc_step ops : step_stable ops acc_ok.
Proof.
  intros e i b st st' [Hle Hin] Hstep.
  unfold batch_step', batch_step in Hstep.
  apply bind_Ok in Hstep as (st1 & Hreport & Hval).
  pose proof (training_step_spec ops e i b st) as Hts. simpl in Hts.
  fold (training_step' ops e i b st) in Hreport.
  destruct Hts as (Tt & _ & _ & _ & Ta & _).
  assert (H1 : acc_ok st1).
  { apply report_spec in Hreport as [_ [[_ ->]|(_ & _ & ->)]];
      unfold acc_ok; simpl; rewrite Tt, Ta; simpl; done. }
  clear Hreport. destruct H1 as [Hle1 Hin1].
  apply validate_acc in Hval as [->|(c & dl & da & df & s & Vt & Va)]; [done|].
  unfold acc_ok. rewrite Vt, Va. simpl.
  destruct (Qltb (st_max_dev_acc st1) da) eqn:Hlt.
  - apply Qltb_lt in Hlt. split; [|right; left].
    intros a [->|Ha]%elem_of_cons; [apply Qle_refl|].
    eapply Qle_trans; [apply Hle1, Ha|]. apply Qlt_le_weak, Hlt.
  - apply Qltb_nlt in Hlt. split.
    + intros a [->|Ha]%elem_of_cons; [done|]. apply Hle1, Ha.
    + destruct Hin1 as [H0|Hin1]; [by left|]. right. by right.
Qed.

(** X3. The best validation accuracy the loop keeps is the running maximum
    of the validation accuracies, from zero: no validation accuracy of the
    run exceeds it, and it is zero or the accuracy of some validation of
    the run. It is kept apart from the best F1, which alone decides the
    snapshot. *)
Theorem max_dev_acc_is_running_maximum h0 o0 st :
  train' h0 o0 = Ok st ->
  (forall a, a ∈ dev_accs (history st) -> (a <= st_max_dev_acc st)%Q) /\
  (st_max_dev_acc st = 0%Q \/ st_max_dev_acc st ∈ dev_accs (history st)).
Proof.
  intros Htrain.
  assert (Hrev : forall (tr : list Event) a, a ∈ dev_accs (rev tr) <-> a ∈ dev_accs tr).
  { assert (Happ : forall t1 t2 : list Event, dev_accs (t1 ++ t2) = dev_accs t1 ++ dev_accs t2).
    { intros t1 t2. induction t1 as [|ev t1 IH]; simpl; [done|].
      destruct ev; simpl; by rewrite IH. }
    intros tr a. induction tr as [|ev tr IH]; simpl; [done|].
    rewrite Happ, elem_of_app, IH.
    destruct ev; simpl; rewrite ?elem_of_cons, ?elem_of_nil; tauto. }
  assert (Hok : acc_ok st).
  { revert Htrain. apply train_inv; [apply acc_blind|apply acc_step|].
    split; [|by left]. simpl. intros a Ha. inversion Ha. }
  destruct Hok as [Hle Hin]. unfold history. split.
  - intros a Ha. apply Hle, Hrev, Ha.
  - destruct Hin as [H0|Hin]; [by left|]. right. apply Hrev, Hin.
Qed.

(** *** What [train] returns *)

Lemma best_f1_ge (tr : list Event) (f : Q) :
  f ∈ dev_f1s tr -> (f <= best_f1 tr)%Q.
Proof.
  induction tr as [|ev tr IH]; simpl; [intros Hf; inversion Hf|].
  destruct ev as [| |c dl da g s]; [exact IH|exact IH|].
  intros [->|Hf]%elem_of_cons.
  - destruct (Qltb (best_f1 tr) g) eqn:Hlt; [apply Qle_refl|].
    apply Qltb_nlt, Hlt.
  - destruct (Qltb (best_f1 tr) g) eqn:Hlt; [|auto].
    apply Qltb_lt in Hlt. eapply Qle_trans; [apply IH, Hf|].
    apply Qlt_le_weak, Hlt.
Qed.

Lemma best_f1_nonneg (tr : list Event) : (0 <= best_f1 tr)%Q.
Proof.
  induction tr as [|ev tr IH]; simpl; [apply Qle_refl|].
  destruct ev as [| |c dl da g s]; [exact IH|exact IH|].
  destruct (Qltb (best_f1 tr) g) eqn:Hlt; [|done].
  apply Qltb_lt in Hlt. eapply Qle_trans; [exact IH|]. apply Qlt_le_weak, Hlt.
Qed.

Lemma snapshot_f1_best (tr : list Event) :
  trace_ok (print_every args) tr ->
  match latest_snapshot tr with
  | None => best_f1 tr = 0%Q /\ snapshot_f1 tr = None
  | Some _ => snapshot_f1 tr = Some (best_f1 tr) /\ (0 < best_f1 tr)%Q
  end.
Proof.
  induction tr as [|ev tr IH]; simpl; [done|].
  destruct ev as [| |c dl da f s]; [exact IH|intros [_ H]; exact (IH H)|].
  intros [Hs Hok]. specialize (IH Hok).
  destruct s as [s|].
  - destruct Hs as [Hs _]. rewrite Hs by eauto. split; [done|].
    eapply Qle_lt_trans; [apply best_f1_nonneg|]. apply Qltb_lt, Hs. eauto.
  - destruct (Qltb (best_f1 tr) f) eqn:Hlt; [|exact IH].
    destruct Hs as [_ Hs]. destruct (Hs eq_refl) as [? [=]].
Qed.

(** X4. The two values [train] returns agree. If [best_model] is [None],
    [max_dev_f1] is zero and no validation had an F1 above zero. If
    [best_model] is a snapshot, [max_dev_f1] is the F1 of the validation
    that took it; it is above zero and no validation of the run had a
    higher F1. So the F1 in the name of the checkpoint file is the F1 of
    the saved parameters. *)
Theorem returned_f1_belongs_to_returned_model h0 o0 st :
  train' h0 o0 = Ok st ->
  (forall f, f ∈ dev_f1s (st_trace st) -> (f <= st_max_dev_f1 st)%Q) /\
  match st_best_model st with
  | None => st_max_dev_f1 st = 0%Q /\ snapshot_f1 (st_trace st) = None
  | Some _ =>
      snapshot_f1 (st_trace st) = Some (st_max_dev_f1 st) /\
      (0 < st_max_dev_f1 st)%Q
  end.
Proof.
  intros Htrain.
  destruct (train_book _ _ _ Htrain) as (_ & _ & _ & Hf & Hb & _ & Hok & _).
  rewrite Hf, Hb. split; [intros f; apply best_f1_ge|].
  pose proof (snapshot_f1_best _ Hok) as Hs.
  destruct (latest_snapshot (st_trace st)); exact Hs.
Qed.

(** *** A zero interval *)

Lemma batch_step_zero_interval ops e i b st :
  print_every args = 0 \/ validate_every args = 0 ->
  batch_step' ops e i b st = Raise ZeroDivisionError.
Proof.
  intros Hzero. unfold batch_step', batch_step.
  destruct (report args i _) as [st1|ex] eqn:Hreport.
  - simpl. destruct Hzero as [Hpe|Hve].
    + unfold report, py_mod in Hreport. rewrite Hpe in Hreport. discriminate.
    + unfold validate, py_mod. rewrite Hve. done.
  - simpl. f_equal. revert Hreport. unfold report, py_mod, py_floordiv, py_truediv.
    destruct (print_every args =? 0); simpl; [congruence|].
    destruct (_ =? 0); [|discriminate].
    destruct (_ =? 0)%N; simpl; [congruence|discriminate].
Qed.

Lemma run_epochs_zero_interval ops n :
  print_every args = 0 \/ validate_every args = 0 ->
  forall e st,
    (exists e', (e <= e' < e + n)%nat /\ train_iter e' <> []) ->
    run_epochs' ops n e st = Raise ZeroDivisionError.
Proof.
  intros Hzero. induction n as [|n IH]; intros e st (e' & He' & Hne); [lia|].
  simpl. unfold run_epoch. destruct (train_iter e) as [|b bs] eqn:Hbs.
  - simpl. apply IH. exists e'. split; [|done].
    destruct (decide (e' = e)) as [->|]; [congruence|lia].
  - simpl. unfold run_batches', batch_step' in *.
    rewrite batch_step_zero_interval by done. done.
Qed.

(** X5. When at least one parameter requires a gradient (so that the
    optimizer is built), a reporting or validation interval of zero makes
    the run fail with [ZeroDivisionError] at the first batch it meets:
    [train] returns nothing as soon as one of its epochs has a batch. *)
Theorem zero_interval_raises h0 o0 :
  print_every args = 0 \/ validate_every args = 0 ->
  trainable model h0 <> [] ->
  (exists e, (e < Z.to_nat (max_epoch args))%nat /\ train_iter e <> []) ->
  train' h0 o0 = Raise ZeroDivisionError.
Proof.
  intros Hzero Hne (e & He & Hbs). unfold train', train, PyIter.drain.
  destruct (trainable model h0) as [|l ls]; [done|].
  apply run_epochs_zero_interval; [done|]. exists e. split; [lia|done].
Qed.

(** *** Tensors that require no gradient *)

Lemma foldr_alter_fixed {X : Type} (f : X -> Cell Tensor -> Cell Tensor)
      (key : X -> loc) (xs : list X) (h : heap Tensor) (l : loc) (c : Cell Tensor) :
  (forall x, f x c = c) ->
  h !! l = Some c ->
  foldr (fun x h' => alter (f x) (key x) h') h xs !! l = Some c.
Proof.
  intros Hf Hl. induction xs as [|x xs IH]; simpl; [done|].
  rewrite list_lookup_alter. destruct (decide (key x = l)) as [<-|_]; [|exact IH].
  rewrite IH. simpl. by rewrite Hf.
Qed.

Definition kept (l : loc) (c : Cell Tensor) (st : State) : Prop :=
  st_parameters st = [] /\ st_heap st !! l = Some c.

Lemma kept_step ops l c :
  requires_grad c = false -> l ∉ ops -> step_stable ops (kept l c).
Proof.
  intros Hrg Hops e i b st st' [Hp Hl] Hstep.
  unfold batch_step', batch_step in Hstep.
  apply bind_Ok in Hstep as (st1 & Hreport & Hval).
  assert (H0 : kept l c (training_step' ops e i b st)).
  { pose proof (training_step_spec ops e i b st) as Hts. simpl in Hts.
    destruct Hts as (_ & _ & _ & _ & _ & _ & _ & Tp). split; [exact Tp|].
    unfold training_step', training_step.
    destruct (forward_backward _ b) as [out gs]. rewrite Hp.
    rewrite clip_grad_norm_exhausted. unfold optimizer_step.
    destruct (adam_step _ _) as [o ds]. simpl.
    rewrite (foldr_alter_lookup_ne (fun ld => set_data ld.2) fst).
    - unfold backward.
      apply (foldr_alter_fixed
               (fun lg c' => if requires_grad c' then set_grad (Some lg.2) c' else c') fst).
      + intros x. by rewrite Hrg.
      + exact Hl.
    - intros [l' d] Hin%elem_of_zip_l. simpl. intros ->.
      apply list_elem_of_In, filter_In in Hin as [Hin _].
      apply Hops, list_elem_of_In, Hin. }
  fold (training_step' ops e i b st) in Hreport.
  assert (H1 : kept l c st1).
  { apply report_spec in Hreport as [_ [[_ ->]|(_ & _ & ->)]]; [done|].
    exact H0. }
  clear Hreport H0. destruct H1 as [Hp1 Hl1].
  apply validate_spec in Hval
    as [_ [[_ ->]|(_ & dl & da & df & snap & _ & _ & _ & _ & _ & Vp & Hcase)]].
  { done. }
  split; [congruence|].
  destruct Hcase as [(_ & _ & -> & _)|(_ & _ & -> & _)]; [|done].
  unfold deepcopy. simpl. apply lookup_app_l_Some, Hl1.
Qed.

(** X6. A tensor that requires no gradient is never written by the run:
    the backward pass gives it no gradient and the optimizer, which holds
    the parameters that require one, does not step it. Frozen parameters
    come out of [train] as they went in. *)
Theorem frozen_tensors_unchanged h0 o0 st l c :
  train' h0 o0 = Ok st ->
  h0 !! l = Some c ->
  requires_grad c = false ->
  st_heap st !! l = Some c.
Proof.
  intros Htrain Hl Hrg.
  assert (Hk : kept l c st).
  { revert Htrain. apply train_inv.
    - intros s o H. exact H.
    - apply kept_step; [done|]. intros Hin. unfold trainable in Hin.
      apply list_elem_of_In, filter_In in Hin as [_ Hin].
      rewrite Hl, Hrg in Hin. discriminate.
    - done. }
  apply Hk.
Qed.
End TrainFacts.

(** * The loop on the small instance *)

Section DemoFacts.
Import Demo.

(** The validation F1 values 0.2, 0.5, 0.3, 0.6 take the snapshot at the
    first, second and fourth validation only. *)
Lemma best_checkpoint_strict_running_maxima_witness :
  exists st,
    Demo.train args_f1 iter_f1 = Ok st /\
    validations (history st)
      = [(0.2, true); (0.5, true); (0.3, false); (0.6, true)]%Q /\
    st_max_dev_f1 st = 0.6%Q /\
    st_best_model st = fst <$> latest_snapshot (st_trace st).
Proof.
  eexists. split; [vm_compute; reflexivity|].
  split; [vm_compute; reflexivity|].
  split; [vm_compute; reflexivity|].
  eapply (@best_checkpoint_strict_running_maxima Q Batch unit forward_backward
            Qmult total_norm_of adam_step (fun o => o) test iter_f1 args_f1
            model h0 tt).
  vm_compute. reflexivity.
Defined.

(** C3, as stated, fails: with [print_every = 2] and two batches of loss 1,
    the loop reports the loss 2, not the average 1. *)
Lemma reported_loss_is_not_an_average :
  exists st,
    Demo.train args_window iter_window = Ok st /\
    exists before c loss acc after,
      history st = before ++ EvTrain c loss acc :: after /\
      length (open_window (rev before)) = 2%nat /\
      loss = 2%Q /\
      (mean_loss (open_window (rev before)) == 1)%Q /\
      ~ (loss == mean_loss (open_window (rev before)))%Q.
Proof.
  eexists. split; [vm_compute; reflexivity|].
  match goal with
  | |- context [history ?s] =>
      exists (take 2 (history s)); eexists _, _, _; exists (drop 3 (history s))
  end.
  split; [reflexivity|]. split; [reflexivity|]. split; [reflexivity|].
  split; [reflexivity|]. intros H. vm_compute in H. discriminate H.
Defined.

Lemma report_every_print_every_steps_witness :
  exists st,
    Demo.train args_window iter_window = Ok st /\
    forall before e i out after,
      history st = before ++ EvStep e i out :: after ->
      (i + 1) mod 2 = 0 ->
      exists c loss acc after', after = EvTrain c loss acc :: after'.
Proof.
  eexists. split; [vm_compute; reflexivity|].
  eapply (@report_every_print_every_steps Q Batch unit forward_backward
            Qmult total_norm_of adam_step (fun o => o) test iter_window
            args_window model h0 tt).
  vm_compute. reflexivity.
Defined.

(** C4, as stated, fails: with three batches per epoch and
    [print_every = 2], the first report of the second epoch covers the
    third batch of the first epoch (loss 5, wrong prediction) besides the
    two batches of its own epoch (loss 1 each, right predictions): it shows
    the loss 7 and the accuracy 2/3 where the two batches of its epoch
    alone give 2 and 1. *)
Lemma partial_window_not_dropped :
  exists st,
    Demo.train args_window iter_window = Ok st /\
    exists before c loss acc after,
      history st = before ++ EvTrain c loss acc :: after /\
      length (epoch_window (rev before)) = 2%nat /\
      sum_loss (epoch_window (rev before)) = 2%Q /\
      loss = 7%Q /\
      (acc == 2 # 3)%Q /\
      ~ (loss == sum_loss (epoch_window (rev before)))%Q /\
      ~ (acc * inject_Z (Z.of_N (sum_size (epoch_window (rev before))))
         == sum_correct (epoch_window (rev before)))%Q.
Proof.
  eexists. split; [vm_compute; reflexivity|].
  match goal with
  | |- context [history ?s] =>
      exists (take 6 (history s)); eexists _, _, _; exists (drop 7 (history s))
  end.
  split; [reflexivity|]. split; [reflexivity|]. split; [reflexivity|].
  split; [reflexivity|]. split; [reflexivity|].
  split; intros H; vm_compute in H; discriminate H.
Defined.

Lemma partial_window_carries_over_witness :
  exists st,
    Demo.train args_window iter_window = Ok st /\
    st_loss st = sum_loss (open_window (st_trace st)) /\
    st_acc st = sum_correct (open_window (st_trace st)) /\
    st_size st = sum_size (open_window (st_trace st)).
Proof.
  eexists. split; [vm_compute; reflexivity|].
  eapply (@partial_window_carries_over Q Batch unit forward_backward
            Qmult total_norm_of adam_step (fun o => o) test iter_window
            args_window model h0 tt).
  vm_compute. reflexivity.
Defined.

(** The first validation (F1 0.5) takes a snapshot; the second step moves
    the parameter to 0.3; the snapshot still holds 0.5. *)
Lemma snapshot_is_independent_witness :
  exists st ls,
    Demo.train args_f1 iter_regress = Ok st /\
    read_data (st_heap st) model = [0.3%Q] /\
    st_best_model st = Some ls /\
    read_data (st_heap st) ls = [0.5%Q] /\
    (forall l, l ∈ ls -> l ∉ model) /\
    exists path, Demo.main args_f1 iter_regress = Ok (path, Some [0.5%Q]).
Proof.
  eexists. eexists. split; [vm_compute; reflexivity|].
  split; [vm_compute; reflexivity|].
  eapply (@snapshot_is_independent Q Batch unit forward_backward
            Qmult total_norm_of adam_step (fun o => o) test iter_regress
            args_f1 model h0 tt).
  - repeat constructor.
  - vm_compute. reflexivity.
  - vm_compute. reflexivity.
Defined.

(** One epoch of one batch with [validate_every = 10]: no validation. *)
Lemma no_improvement_saves_none_witness :
  exists st,
    Demo.train args_clip iter_clip = Ok st /\
    st_best_model st = None /\
    st_max_dev_f1 st = 0%Q /\
    Demo.main args_clip iter_clip =
      Ok ("saved_models/SAN4EMO_12:00:00_0.0000.pt"%string, None).
Proof.
  apply (@no_improvement_saves_none Q Batch unit forward_backward
           Qmult total_norm_of adam_step (fun o => o) test iter_clip
           args_clip model h0 tt).
  - discriminate.
  - discriminate.
  - intros e. repeat constructor; intros ps; discriminate.
  - discriminate.
  - left. intros e He. reflexivity.
Defined.

(** C8 fails on the code. One step whose gradient has norm 5, with
    [norm_limit = 1]: the [filter] object [parameters] was consumed by the
    optimizer's constructor, [clip_grad_norm_] is handed no parameter, the
    gradient stays 5 and the optimizer steps along it. Handed the
    parameter itself, [clip_grad_norm_] would have scaled the gradient
    below the limit. *)
Theorem gradient_clipping_skipped :
  exists st,
    Demo.train args_clip iter_clip = Ok st /\
    st_parameters st = [] /\
    read_grad (st_heap st) model = [5%Q] /\
    (norm_limit args_clip < total_norm_of (read_grad (st_heap st) model))%Q /\
    read_data (st_heap st) model = [5%Q] /\
    (total_norm_of
       (read_grad (clip_grad_norm_ Qmult total_norm_of model
                                   (norm_limit args_clip) (st_heap st)).1
                  model)
     <= norm_limit args_clip)%Q.
Proof.
  eexists. split; [vm_compute; reflexivity|].
  split; [reflexivity|]. split; [reflexivity|].
  split; [reflexivity|]. split; [reflexivity|].
  vm_compute. discriminate.
Qed.
End DemoFacts.

(** * Properties of [argmax] *)

Section ArgmaxFacts.
Context {S : Type} `{Score S}.

Lemma gtb_irrefl (x : S) : gtb x x = false.
Proof.
  destruct (gtb x x) eqn:E; [|done]. pose proof (gtb_asym x x E). congruence.
Qed.

Lemma gtb_trans (x y z : S) : gtb x y = true -> gtb y z = true -> gtb x z = true.
Proof.
  intros Hxy Hyz. destruct (gtb_cotrans x y z Hxy) as [Hxz|Hzy]; [done|].
  pose proof (gtb_asym y z Hyz). congruence.
Qed.

Lemma argmax_from_spec (xs : list S) :
  forall (pre : list S) (best_i : nat) (best : S),
    pre !! best_i = Some best ->
    (forall j y, pre !! j = Some y -> gtb y best = false) ->
    (forall j y, (j < best_i)%nat -> pre !! j = Some y -> gtb best y = true) ->
    first_max (pre ++ xs) (argmax_from best_i best (length pre) xs).
Proof.
  induction xs as [|x xs IH]; intros pre bi b Hb Hmax Hfirst; simpl.
  - rewrite app_nil_r. exists b. done.
  - replace (pre ++ x :: xs) with ((pre ++ [x]) ++ xs) by (by rewrite <- app_assoc).
    replace (Datatypes.S (length pre)) with (length (pre ++ [x]))
      by (rewrite length_app; simpl; lia).
    destruct (gtb x b) eqn:Hxb.
    + apply IH.
      * rewrite lookup_app_r by lia. by rewrite Nat.sub_diag.
      * intros j y [Hy|[_ Hy]]%lookup_app_Some.
        -- destruct (gtb y x) eqn:Hyx; [|done].
           rewrite <- (Hmax j y Hy). symmetry. eapply gtb_trans; eassumption.
        -- destruct (j - length pre)%nat; [|done]. injection Hy as <-.
           apply gtb_irrefl.
      * intros j y Hj Hy. rewrite lookup_app_l in Hy by done.
        destruct (gtb_cotrans x b y Hxb) as [Hxy|Hyb]; [done|].
        rewrite (Hmax j y Hy) in Hyb. discriminate.
    + apply IH.
      * apply lookup_app_l_Some, Hb.
      * intros j y [Hy|[_ Hy]]%lookup_app_Some; [eauto|].
        destruct (j - length pre)%nat; [|done]. by injection Hy as <-.
      * intros j y Hj Hy. apply (Hfirst j y Hj).
        rewrite lookup_app_l in Hy; [done|].
        apply lookup_lt_Some in Hb. lia.
Qed.

(** [argmax] returns the first index of a maximal score. *)
Lemma argmax_spec (row : list S) (i : nat) :
  argmax row = Ok i -> first_max row i.
Proof.
  destruct row as [|x xs]; [discriminate|]. intros [= <-].
  apply (argmax_from_spec xs [x] 0%nat x).
  - done.
  - intros [|j] y; [|done]. intros [= <-]. apply gtb_irrefl.
  - intros j y Hj. lia.
Qed.

(** [argmax] only looks at how the scores compare: a transform of the row
    that keeps every comparison keeps the index. *)
Lemma argmax_from_map {T : Type} `{Score T} (f : S -> T) (xs : list S) :
  forall best_i best i,
    (forall x, x ∈ xs -> gtb (f x) (f best) = gtb x best) ->
    (forall x y, x ∈ xs -> y ∈ xs -> gtb (f x) (f y) = gtb x y) ->
    argmax_from best_i (f best) i (map f xs) = argmax_from best_i best i xs.
Proof.
  induction xs as [|x xs IH]; intros bi b i Hb Hall; simpl; [done|].
  rewrite (Hb x) by left. destruct (gtb x b).
  - apply IH.
    + intros y Hy. apply Hall; [by right|left].
    + intros y z Hy Hz. apply Hall; by right.
  - apply IH.
    + intros y Hy. apply Hb. by right.
    + intros y z Hy Hz. apply Hall; by right.
Qed.

Lemma argmax_map {T : Type} `{Score T} (f : S -> T) (row : list S) :
  (forall x y, x ∈ row -> y ∈ row -> gtb (f x) (f y) = gtb x y) ->
  argmax (map f row) = argmax row.
Proof.
  destruct row as [|x xs]; [done|]. intros Hall. simpl. f_equal.
  apply argmax_from_map.
  - intros y Hy. apply Hall; [by right|left].
  - intros y z Hy Hz. apply Hall; by right.
Qed.
End ArgmaxFacts.

(** * Properties of the string operations *)

Section StringFacts.
Implicit Types s t body line : str.

Lemma split_nonempty sep s : split sep s <> [].
Proof.
  destruct s as [|c s]; simpl; [done|].
  destruct (c =? sep)%N; [done|]. by destruct (split sep s).
Qed.

(** Splitting at a separator and joining with it gives the string back. *)
Lemma join_split sep s : join [sep] (split sep s) = s.
Proof.
  induction s as [|c s IH]; simpl; [done|].
  pose proof (split_nonempty sep s) as Hne.
  destruct (N.eqb_spec c sep) as [->|Hc].
  - destruct (split sep s) as [|f fs]; [done|]. simpl in *. by rewrite IH.
  - destruct (split sep s) as [|f fs]; [done|].
    destruct fs as [|g fs]; simpl in *; by rewrite <- IH.
Qed.

Lemma split_chars sep s f c : f ∈ split sep s -> c ∈ f -> c ∈ s /\ c <> sep.
Proof.
  revert f. induction s as [|d s IH]; intros f Hf Hc; simpl in Hf.
  - apply list_elem_of_singleton in Hf as ->. inversion Hc.
  - destruct (N.eqb_spec d sep) as [->|Hd].
    + apply elem_of_cons in Hf as [->|Hf]; [inversion Hc|].
      destruct (IH f Hf Hc). split; [by right|done].
    + pose proof (split_nonempty sep s) as Hne.
      destruct (split sep s) as [|g gs]; [done|].
      apply elem_of_cons in Hf as [->|Hf].
      * apply elem_of_cons in Hc as [->|Hc]; [split; [left|done]|].
        destruct (IH g ltac:(left) Hc). split; [by right|done].
      * destruct (IH f ltac:(by right) Hc). split; [by right|done].
Qed.

Lemma join_chars sep (fs : list str) c :
  c ∈ join sep fs -> c ∈ sep \/ exists f, f ∈ fs /\ c ∈ f.
Proof.
  induction fs as [|f fs IH]; simpl; [intros Hc; inversion Hc|].
  destruct fs as [|g fs].
  - intros Hc. right. exists f. split; [left|done].
  - intros [Hc|[Hc|Hc]%elem_of_app]%elem_of_app.
    + right. exists f. split; [left|done].
    + by left.
    + destruct (IH Hc) as [?|(f' & Hf' & ?)]; [by left|].
      right. exists f'. split; [by right|done].
Qed.

Lemma lstrip_chars s c : c ∈ lstrip s -> c ∈ s.
Proof.
  induction s as [|d s IH]; simpl; [done|].
  destruct (py_isspace d); [|done]. intros Hc. right. by apply IH.
Qed.

Lemma strip_chars s c : c ∈ strip s -> c ∈ s.
Proof.
  unfold strip, rstrip. intros Hc.
  apply elem_of_rev_iff, lstrip_chars, elem_of_rev_iff, lstrip_chars in Hc. done.
Qed.

Lemma lstrip_app s t :
  lstrip (s ++ t) = match lstrip s with [] => lstrip t | _ => lstrip s ++ t end.
Proof.
  induction s as [|c s IH]; simpl.
  - by destruct (lstrip t).
  - destruct (py_isspace c); [exact IH|done].
Qed.

(** [strip] does not see the line end. *)
Lemma strip_line_end body : strip (body ++ [NL]) = strip body.
Proof.
  unfold strip. rewrite lstrip_app. simpl.
  destruct (lstrip body) as [|c r]; [done|].
  unfold rstrip. rewrite rev_app_distr. done.
Qed.

(** The lines of a file: the line end is the last character of a line, if
    it is there at all; and the lines put together are the file. *)
Lemma file_lines_from_spec s :
  forall cur,
    NL ∉ cur ->
    Forall (fun line => exists body, (NL ∉ body) /\ (line = body ++ [NL] \/ line = body))
           (file_lines_from cur s) /\
    concat (file_lines_from cur s) = rev cur ++ s.
Proof.
  induction s as [|c s IH]; intros cur Hcur; simpl.
  - destruct cur as [|d cur]; [done|]. split; [|reflexivity].
    constructor; [|done]. exists (rev (d :: cur)). split; [|by right].
    by rewrite elem_of_rev_iff.
  - destruct (N.eqb_spec c NL) as [->|Hc].
    + destruct (IH [] ltac:(apply not_elem_of_nil)) as [Hall Hcat]. split.
      * constructor; [|done]. exists (rev cur). split; [|by left].
        by rewrite elem_of_rev_iff.
      * simpl. rewrite Hcat. simpl. by rewrite <- app_assoc.
    + destruct (IH (c :: cur)) as [Hall Hcat].
      { intros [H|H]%elem_of_cons; [by symmetry in H|done]. }
      split; [done|]. rewrite Hcat. simpl. by rewrite <- app_assoc.
Qed.

Lemma strip_file_line content line :
  line ∈ file_lines content -> NL ∉ strip line.
Proof.
  intros Hline.
  destruct (file_lines_from_spec content [] ltac:(apply not_elem_of_nil)) as [Hall _].
  rewrite Forall_forall in Hall. destruct (Hall line Hline) as (body & Hb & [->| ->]).
  - rewrite strip_line_end. intros Hc. by apply Hb, strip_chars.
  - intros Hc. by apply Hb, strip_chars.
Qed.

Lemma concat_chars (ls : list str) (l : str) (c : N) :
  l ∈ ls -> c ∈ l -> c ∈ concat ls.
Proof.
  induction ls as [|l' ls IH]; intros Hl Hc; [inversion Hl|]. simpl.
  apply elem_of_app. apply elem_of_cons in Hl as [->|Hl]; [by left|right; by apply IH].
Qed.

Lemma file_lines_chars content line c :
  line ∈ file_lines content -> c ∈ line -> c ∈ content.
Proof.
  intros Hl Hc. unfold file_lines in Hl.
  destruct (file_lines_from_spec content [] ltac:(apply not_elem_of_nil)) as [_ Hcat].
  simpl in Hcat. rewrite <- Hcat. eapply concat_chars; eassumption.
Qed.

(** Content without a carriage return is read as it is stored. *)
Lemma translate_newlines_id (s : str) : CR ∉ s -> translate_newlines s = s.
Proof.
  induction s as [|c s IH]; intros Hs; simpl; [done|].
  destruct (N.eqb_spec c CR) as [->|Hc]; [exfalso; apply Hs; left|].
  rewrite IH; [done|]. intros H. apply Hs. by right.
Qed.

(** Lines that end with their only line end are read back as they were
    written. *)
Lemma file_lines_concat (rows : list str) :
  Forall (fun row => exists body, (NL ∉ body) /\ row = body ++ [NL]) rows ->
  file_lines (concat rows) = rows.
Proof.
  assert (Hbody : forall body rest cur,
             NL ∉ body ->
             file_lines_from cur (body ++ NL :: rest)
             = (rev cur ++ body ++ [NL]) :: file_lines_from [] rest).
  { induction body as [|c body IH]; intros rest cur Hb; simpl.
    - done.
    - destruct (N.eqb_spec c NL) as [->|Hc]; [exfalso; apply Hb; left|].
      rewrite IH by (intros H; apply Hb; by right). simpl.
      by rewrite <- app_assoc. }
  unfold file_lines. induction 1 as [|row rows (body & Hb & ->) _ IH]; simpl; [done|].
  rewrite <- app_assoc. simpl. rewrite Hbody by done. by rewrite IH.
Qed.
End StringFacts.

(** * Properties of [submission] *)

Lemma traverse_Ok {A B : Type} (f : A -> res B) (l : list A) (bs : list B) :
  traverse f l = Ok bs -> Forall2 (fun a b => f a = Ok b) l bs.
Proof.
  revert bs. induction l as [|a l IH]; intros bs; simpl.
  - intros [= <-]. constructor.
  - intros (b & Hb & Hrest)%bind_Ok. apply bind_Ok in Hrest as (bs' & Hbs' & [= <-]).
    constructor; [done|]. apply IH, Hbs'.
Qed.

Lemma traverse_ext {A B : Type} (f g : A -> res B) (l : list A) :
  (forall a, a ∈ l -> f a = g a) -> traverse f l = traverse g l.
Proof.
  induction l as [|a l IH]; intros Hext; simpl; [done|].
  rewrite (Hext a) by left. rewrite IH; [done|].
  intros a' Ha'. apply Hext. by right.
Qed.

Lemma traverse_map {A B C : Type} (g : A -> B) (f : B -> res C) (l : list A) :
  traverse f (map g l) = traverse (fun a => f (g a)) l.
Proof. induction l as [|a l IH]; simpl; [done|]. by rewrite IH. Qed.

Section SubmissionFacts.
Context {S TestBatch : Type} `{Score S}.
Variable forward : TestBatch -> list (list S).
Variable softmax : list S -> list S.
Variable test_iter : list TestBatch.
Variable itos : list str.
Variable load_checkpoint : res unit.

Let submission' := submission forward softmax test_iter itos load_checkpoint.

Lemma predict_unfold :
  predict forward softmax test_iter =
  match test_iter with
  | [] => Raise ValueError
  | _ :: _ =>
      if same_width (map softmax (all_logits forward test_iter))
      then Ok (map softmax (all_logits forward test_iter))
      else Raise ValueError
  end.
Proof.
  assert (Hcat : forall l : list TestBatch,
             concat (map (fun batch => map softmax (forward batch)) l)
             = map softmax (concat (map forward l))).
  { induction l as [|x l IH]; simpl; [done|]. rewrite map_app, IH. done. }
  unfold predict, np_concatenate, all_logits. rewrite <- Hcat.
  destruct test_iter as [|b bs]; done.
Qed.

Lemma predict_Ok preds :
  predict forward softmax test_iter = Ok preds -> preds = map softmax (all_logits forward test_iter).
Proof.
  rewrite predict_unfold. destruct test_iter; [discriminate|].
  destruct (same_width _); [|discriminate]. by intros [= <-].
Qed.

Lemma same_width_true (rows : list (list S)) (w : nat) :
  Forall (fun row => length row = w) rows -> same_width rows = true.
Proof.
  intros Hrows. destruct Hrows as [|row rows Hrow Hrows]; simpl; [done|].
  apply forallb_forall. intros row' Hin%list_elem_of_In.
  rewrite Forall_forall in Hrows. apply Nat.eqb_eq.
  rewrite (Hrows row' Hin). done.
Qed.

Lemma predict_same_width (w : nat) :
  test_iter <> [] ->
  Forall (fun row => length (softmax row) = w) (all_logits forward test_iter) ->
  predict forward softmax test_iter = Ok (map softmax (all_logits forward test_iter)).
Proof.
  intros Hne Hrows. rewrite predict_unfold. destruct test_iter; [done|].
  rewrite (same_width_true _ w); [done|]. by apply Forall_fmap.
Qed.

Lemma submission_rows_Ok preds lines :
  forall lineNum rows,
    submission_rows itos preds lineNum lines = Ok rows ->
    Forall2 (fun kl row => submission_row itos preds (lineNum + kl.1) kl.2 = Ok row)
            (imap (fun k line => (k, line)) lines) rows.
Proof.
  induction lines as [|line lines IH]; intros n rows; simpl.
  - intros [= <-]. constructor.
  - intros (r & Hr & Hrest)%bind_Ok.
    apply bind_Ok in Hrest as (rs & Hrs & [= <-]).
    constructor; [simpl; by rewrite Nat.add_0_r|].
    apply IH in Hrs. clear IH Hr.
    rewrite Forall2_lookup in Hrs. apply Forall2_lookup. intros k.
    specialize (Hrs k). rewrite !list_lookup_imap in *.
    destruct (lines !! k) as [l|]; simpl in *; inversion Hrs as [? ? Hk|]; constructor.
    simpl in *. rewrite <- Hk. f_equal. lia.
Qed.

(** What [submission] writes: the header, then one row per data line of
    the input, in order; the row of line [k] is made of the stripped line
    and of the label of the [k]-th prediction. *)
Lemma submission_Ok fin out :
  submission' fin = Ok out ->
  exists idx rows,
    Forall2 (fun row i => argmax (softmax row) = Ok i) (all_logits forward test_iter) idx /\
    length rows = length (tail (file_lines fin)) /\
    out = header ++ concat rows /\
    forall k line,
      tail (file_lines fin) !! k = Some line ->
      exists i label,
        idx !! k = Some i /\ itos !! i = Some label /\
        rows !! k
          = Some (join [TAB] (take 4 (split TAB (strip line)))
                    ++ [TAB] ++ label ++ [NL]).
Proof.
  unfold submission', submission.
  intros (u & _ & Hrest)%bind_Ok.
  apply bind_Ok in Hrest as (preds & Hpreds & Hrest).
  apply bind_Ok in Hrest as (idx & Hidx & Hrest).
  apply bind_Ok in Hrest as (rows & Hrows & [= <-]).
  apply predict_Ok in Hpreds as ->.
  rewrite traverse_map in Hidx. apply traverse_Ok in Hidx.
  apply submission_rows_Ok in Hrows.
  exists idx, rows. split_and!; try done.
  - apply Forall2_length in Hrows. rewrite length_imap in Hrows. done.
  - intros k line Hline.
    destruct (Forall2_lookup_l _ _ _ k (k, line) Hrows) as (row & Hk & Hrow).
    { rewrite list_lookup_imap, Hline. done. }
    simpl in Hrow. unfold submission_row, py_index in Hrow.
    destruct (idx !! k) as [i|] eqn:Hi; [|discriminate]. simpl in Hrow.
    destruct (itos !! i) as [label|] eqn:Hlabel; [|discriminate]. simpl in Hrow.
    injection Hrow as <-. exists i, label. split_and!; try done.
    rewrite Hk, <- !app_assoc. done.
Qed.

Lemma submission_rows_labels preds lines :
  forall lineNum rows,
    submission_rows itos preds lineNum lines = Ok rows ->
    exists labels,
      length labels = length lines /\
      Forall (fun label => label ∈ itos) labels /\
      rows = zip_with (fun line label =>
                         join [TAB] (take 4 (split TAB (strip line)))
                           ++ [TAB] ++ label ++ [NL])
                      lines labels.
Proof.
  induction lines as [|line lines IH]; intros n rows; simpl.
  - intros [= <-]. exists []. done.
  - intros (r & Hr & Hrest)%bind_Ok.
    apply bind_Ok in Hrest as (rs & Hrs & [= <-]).
    destruct (IH _ _ Hrs) as (labels & Hlen & Hin & ->).
    unfold submission_row, py_index in Hr.
    destruct (preds !! n) as [i|]; [|discriminate]. simpl in Hr.
    destruct (itos !! i) as [label|] eqn:Hlabel; [|discriminate]. simpl in Hr.
    injection Hr as <-. exists (label :: labels). split_and!.
    + simpl. by rewrite Hlen.
    + constructor; [|done]. eapply list_elem_of_lookup_2, Hlabel.
    + simpl. rewrite <- !app_assoc. done.
Qed.

Lemma submission_rows_predicted preds lines :
  forall lineNum rows,
    submission_rows itos preds lineNum lines = Ok rows ->
    exists labels,
      length labels = length lines /\
      (forall k label,
          labels !! k = Some label ->
          exists i, preds !! (lineNum + k)%nat = Some i /\ itos !! i = Some label) /\
      rows = zip_with (fun line label =>
                         join [TAB] (take 4 (split TAB (strip line)))
                           ++ [TAB] ++ label ++ [NL])
                      lines labels.
Proof.
  induction lines as [|line lines IH]; intros n rows; simpl.
  - intros [= <-]. exists []. split_and!; [done| |done]. intros k label Hk. done.
  - intros (r & Hr & Hrest)%bind_Ok.
    apply bind_Ok in Hrest as (rs & Hrs & [= <-]).
    destruct (IH _ _ Hrs) as (labels & Hlen & Hin & ->).
    unfold submission_row, py_index in Hr.
    destruct (preds !! n) as [i|] eqn:Hi; [|discriminate]. simpl in Hr.
    destruct (itos !! i) as [label|] eqn:Hlabel; [|discriminate]. simpl in Hr.
    injection Hr as <-. exists (label :: labels). split_and!.
    + simpl. by rewrite Hlen.
    + intros [|k] label' Hk; simpl in Hk.
      * injection Hk as <-. exists i. by rewrite Nat.add_0_r.
      * destruct (Hin k label' Hk) as (i' & Hi' & Hl'). exists i'.
        split; [|done]. rewrite <- Hi'. f_equal. lia.
    + simpl. rewrite <- !app_assoc. done.
Qed.

(** C2, as the code has it. The file written starts with the header row
    [id turn1 turn2 turn3 label] and goes on with exactly one row per data
    line of the input, in the order of the input; the row of the [k]-th
    data line is the first four (or fewer) tab-separated fields of the
    line stripped of the white space at both ends, then the predicted
    label of the [k]-th test example in its string form: the vocabulary
    string at the index that [argmax] picks for the softmax of the logits
    of that example. *)
Theorem submission_header_and_rows fin out :
  submission' fin = Ok out ->
  header = s_ "id" ++ [TAB] ++ s_ "turn1" ++ [TAB] ++ s_ "turn2" ++ [TAB]
             ++ s_ "turn3" ++ [TAB] ++ s_ "label" ++ [NL] /\
  exists (predicted : list nat) (labels : list str),
    Forall2 (fun logits i => argmax (softmax logits) = Ok i)
            (all_logits forward test_iter) predicted /\
    length labels = length (tail (file_lines fin)) /\
    (forall k label,
        labels !! k = Some label ->
        exists i, predicted !! k = Some i /\ itos !! i = Some label) /\
    out = header
            ++ concat (zip_with (fun line label =>
                                   join [TAB] (take 4 (split TAB (strip line)))
                                     ++ [TAB] ++ label ++ [NL])
                                (tail (file_lines fin)) labels).
Proof.
  unfold submission', submission.
  intros (u & _ & Hrest)%bind_Ok.
  apply bind_Ok in Hrest as (preds & Hpreds & Hrest).
  apply bind_Ok in Hrest as (idx & Hidx & Hrest).
  apply bind_Ok in Hrest as (rows & Hrows & [= <-]).
  split; [reflexivity|].
  apply predict_Ok in Hpreds as ->.
  rewrite traverse_map in Hidx. apply traverse_Ok in Hidx.
  destruct (submission_rows_predicted _ _ _ _ Hrows) as (labels & Hlen & Hin & ->).
  exists idx, labels. done.
Qed.

(** C5. The label written on the row of the [k]-th data line is the
    vocabulary string at the index [argmax] picks for the softmax of the
    logits of the [k]-th test example: the first index whose score no
    score of the row exceeds. The output is a function of the input. *)
Theorem predicted_label_is_argmax_of_softmax fin out :
  submission' fin = Ok out ->
  (exists rows,
      out = header ++ concat rows /\
      length rows = length (tail (file_lines fin)) /\
      forall k row,
        rows !! k = Some row ->
        exists logits i label fields,
          (all_logits forward test_iter) !! k = Some logits /\
          argmax (softmax logits) = Ok i /\
          first_max (softmax logits) i /\
          itos !! i = Some label /\
          row = fields ++ [TAB] ++ label ++ [NL]) /\
  (forall out', submission' fin = Ok out' -> out' = out).
Proof.
  intros Hsub. split; [|congruence].
  destruct (submission_Ok _ _ Hsub) as (idx & rows & Hidx & Hlen & -> & Hrows).
  exists rows. split_and!; try done.
  intros k row Hrow.
  destruct (lookup_lt_is_Some_2 (tail (file_lines fin)) k) as [line Hline].
  { rewrite <- Hlen. eapply lookup_lt_Some, Hrow. }
  destruct (Hrows k line Hline) as (i & label & Hi & Hlabel & Hrow').
  rewrite Hrow in Hrow'. injection Hrow' as ->.
  destruct (Forall2_lookup_r _ _ _ k i Hidx Hi) as (logits & Hlogits & Hargmax).
  exists logits, i, label, (join [TAB] (take 4 (split TAB (strip line)))).
  split_and!; try done. apply argmax_spec, Hargmax.
Qed.

(** *** When [submission] completes, and how it fails *)

Lemma argmax_lt (row : list S) (i : nat) : argmax row = Ok i -> (i < length row)%nat.
Proof.
  intros (x & Hx & _)%argmax_spec. eapply lookup_lt_Some, Hx.
Qed.

Lemma traverse_total {A B : Type} (f : A -> res B) (l : list A) :
  (forall a, a ∈ l -> exists b, f a = Ok b) -> exists bs, traverse f l = Ok bs.
Proof.
  induction l as [|a l IH]; intros Hall; simpl; [eauto|].
  destruct (Hall a) as [b ->]; [left|]. simpl.
  destruct IH as [bs ->]; [intros; apply Hall; by right|]. simpl. eauto.
Qed.

Lemma submission_rows_total preds lines :
  Forall (fun p => (p < length itos)%nat) preds ->
  forall lineNum,
    (lineNum + length lines <= length preds)%nat ->
    exists rows, submission_rows itos preds lineNum lines = Ok rows.
Proof.
  intros Hpreds. induction lines as [|line lines IH]; intros n Hn; simpl; [eauto|].
  simpl in Hn. unfold submission_row, py_index.
  destruct (lookup_lt_is_Some_2 preds n) as [p Hp]; [lia|].
  rewrite Hp. simpl.
  destruct (lookup_lt_is_Some_2 itos p) as [label ->].
  { rewrite Forall_forall in Hpreds. eapply Hpreds, list_elem_of_lookup_2, Hp. }
  simpl. destruct (IH (Datatypes.S n)) as [rows ->]; [lia|]. simpl. eauto.
Qed.

Lemma submission_rows_short preds lines :
  forall lineNum,
    (lineNum <= length preds < lineNum + length lines)%nat ->
    submission_rows itos preds lineNum lines = Raise IndexError.
Proof.
  induction lines as [|line lines IH]; intros n Hn; simpl in *; [lia|].
  unfold submission_row, py_index.
  destruct (preds !! n) as [p|] eqn:Hp; simpl; [|done].
  destruct (itos !! p) as [label|]; simpl; [|done].
  rewrite IH; [done|]. apply lookup_lt_Some in Hp. lia.
Qed.

Lemma argmax_all_total :
  Forall (fun row => softmax row <> []) (all_logits forward test_iter) ->
  exists idx,
    traverse argmax (map softmax (all_logits forward test_iter)) = Ok idx /\
    Forall2 (fun row i => argmax (softmax row) = Ok i)
            (all_logits forward test_iter) idx.
Proof.
  intros Hrows.
  destruct (traverse_total argmax (map softmax (all_logits forward test_iter)))
    as [idx Hidx].
  { intros r (row & -> & Hrow)%list_elem_of_fmap.
    rewrite Forall_forall in Hrows. specialize (Hrows row Hrow).
    destruct (softmax row); [done|]. simpl. eauto. }
  exists idx. split; [done|].
  rewrite traverse_map in Hidx. apply traverse_Ok, Hidx.
Qed.

(** X10. Once the data, the model and the checkpoint are loaded,
    [submission] completes when the test set has a batch, every example
    has the same number of class scores, at least one and no more than
    there are labels, and the input file has no more data lines than the
    test set has examples. With no data line (an empty file, or the header
    alone) it writes the header alone. *)
Theorem submission_completes fin w :
  load_checkpoint = Ok tt ->
  test_iter <> [] ->
  (0 < w <= length itos)%nat ->
  Forall (fun row => length (softmax row) = w) (all_logits forward test_iter) ->
  (length (tail (file_lines fin)) <= length (all_logits forward test_iter))%nat ->
  exists out,
    submission' fin = Ok out /\
    (tail (file_lines fin) = [] -> out = header).
Proof.
  intros Hload Hne Hw Hrows Hlen. unfold submission', submission.
  rewrite Hload, (predict_same_width w Hne Hrows). simpl.
  destruct argmax_all_total as (idx & -> & Hidx).
  { eapply Forall_impl; [exact Hrows|]. simpl. intros row Hrow Hnil.
    rewrite Hnil in Hrow. simpl in Hrow. lia. }
  simpl.
  destruct (submission_rows_total idx (tail (file_lines fin))) with (lineNum := 0%nat)
    as [rows Hrows'].
  - apply Forall_forall. intros i [k Hk]%list_elem_of_lookup.
    destruct (Forall2_lookup_r _ _ _ k i Hidx Hk) as (row & Hrow & Harg).
    apply argmax_lt in Harg. rewrite Forall_forall in Hrows.
    rewrite (Hrows row) in Harg; [lia|]. eapply list_elem_of_lookup_2, Hrow.
  - apply Forall2_length in Hidx. simpl. lia.
  - rewrite Hrows'. exists (header ++ concat rows). split; [reflexivity|].
    intros Hnil. rewrite Hnil in Hrows'. simpl in Hrows'. injection Hrows' as <-.
    apply app_nil_r.
Qed.

(** X11. Once the data, the model and the checkpoint are loaded and the
    predictions are made (a test set with a batch, the same positive
    number of class scores for every example), an input file with more
    data lines than the test set has examples makes [submission] fail with
    [IndexError] (at [preds[lineNum]], or earlier at the lookup of a
    label). *)
Theorem submission_too_few_predictions fin w :
  load_checkpoint = Ok tt ->
  test_iter <> [] ->
  (0 < w)%nat ->
  Forall (fun row => length (softmax row) = w) (all_logits forward test_iter) ->
  (length (all_logits forward test_iter) < length (tail (file_lines fin)))%nat ->
  submission' fin = Raise IndexError.
Proof.
  intros Hload Hne Hw Hrows Hlen. unfold submission', submission.
  rewrite Hload, (predict_same_width w Hne Hrows). simpl.
  destruct argmax_all_total as (idx & -> & Hidx).
  { eapply Forall_impl; [exact Hrows|]. simpl. intros row Hrow Hnil.
    rewrite Hnil in Hrow. simpl in Hrow. lia. }
  simpl. rewrite submission_rows_short; [done|].
  apply Forall2_length in Hidx. simpl. lia.
Qed.

(** *** The shape of the file written *)

Lemma zip_with_ext_Forall {A B C : Type} (P : A -> Prop) (f g : A -> B -> C)
      (l : list A) (k : list B) :
  Forall P l -> (forall x y, P x -> f x y = g x y) ->
  zip_with f l k = zip_with g l k.
Proof.
  intros Hl Hfg. revert k. induction Hl as [|x l Hx _ IH]; intros k; [done|].
  destruct k as [|y k]; simpl; [done|]. by rewrite Hfg, IH.
Qed.

Lemma submission_out fin out :
  submission' fin = Ok out ->
  exists labels,
    length labels = length (tail (file_lines fin)) /\
    Forall (fun label => label ∈ itos) labels /\
    out = header
            ++ concat (zip_with (fun line label =>
                                   join [TAB] (take 4 (split TAB (strip line)))
                                     ++ [TAB] ++ label ++ [NL])
                                (tail (file_lines fin)) labels).
Proof.
  unfold submission', submission.
  intros (u & _ & Hrest)%bind_Ok.
  apply bind_Ok in Hrest as (preds & _ & Hrest).
  apply bind_Ok in Hrest as (idx & _ & Hrest).
  apply bind_Ok in Hrest as (rows & Hrows & [= <-]).
  destruct (submission_rows_labels _ _ _ _ Hrows) as (labels & Hlen & Hin & ->).
  exists labels. done.
Qed.

(** X12. When every data line, stripped, has at most four tab-separated
    fields, each is written as it is, stripped, followed by a tab and its
    label: splitting at the tabs and joining with tabs changes nothing. *)
Theorem wellformed_rows_pass_through fin out :
  submission' fin = Ok out ->
  Forall (fun line => (length (split TAB (strip line)) <= 4)%nat)
         (tail (file_lines fin)) ->
  exists labels,
    length labels = length (tail (file_lines fin)) /\
    out = header
            ++ concat (zip_with (fun line label => strip line ++ [TAB] ++ label ++ [NL])
                                (tail (file_lines fin)) labels).
Proof.
  intros (labels & Hlen & _ & ->)%submission_out Hfields.
  exists labels. split; [done|]. f_equal. f_equal.
  apply (zip_with_ext_Forall _ _ _ _ _ Hfields).
  intros line label Hline. simpl in Hline.
  rewrite take_ge by done. by rewrite join_split.
Qed.

Lemma header_line : exists body, (NL ∉ body) /\ header = body ++ [NL].
Proof.
  eexists. split; [|reflexivity].
  rewrite list_elem_of_In. vm_compute. intuition discriminate.
Qed.

Lemma header_chars c : c ∈ header -> c <> CR.
Proof.
  rewrite list_elem_of_In. vm_compute. intuition (subst; discriminate).
Qed.

Lemma submission_row_chars (P : N -> Prop) line label :
  P TAB -> P NL ->
  (forall c, c ∈ line -> P c) -> (forall c, c ∈ label -> P c) ->
  forall c,
    c ∈ join [TAB] (take 4 (split TAB (strip line))) ++ [TAB] ++ label ++ [NL] -> P c.
Proof.
  intros Htab Hnl Hline Hlabel c [Hc|[Hc|[Hc|Hc]%elem_of_app]%elem_of_app]%elem_of_app.
  - apply join_chars in Hc as [Hc|(f & Hf & Hc)].
    + apply list_elem_of_singleton in Hc as ->. done.
    + assert (Hf' : f ∈ split TAB (strip line)).
      { rewrite <- (take_drop 4 (split TAB (strip line))).
        apply elem_of_app. by left. }
      destruct (split_chars _ _ _ _ Hf' Hc) as [Hs _].
      apply Hline, strip_chars, Hs.
  - apply list_elem_of_singleton in Hc as ->. done.
  - by apply Hlabel.
  - apply list_elem_of_singleton in Hc as ->. done.
Qed.

(** X13. The file written reads back, line by line, as the header
    followed by exactly one line per data line of the input, provided no
    label contains a line feed or a carriage return: a row never contains
    a line end of its own, whatever the input line. (The content of the
    input, as the file object delivers it, holds no carriage return.) *)
Theorem submission_file_reads_back fin out :
  submission' fin = Ok out ->
  CR ∉ fin ->
  (forall label, label ∈ itos -> (NL ∉ label) /\ (CR ∉ label)) ->
  exists rows,
    read_lines out = header :: rows /\
    length rows = length (tail (file_lines fin)).
Proof.
  intros (labels & Hlen & Hin & ->)%submission_out Hfin Hlabels.
  assert (Hlines : Forall (fun line => (NL ∉ strip line) /\ (CR ∉ line))
                          (tail (file_lines fin))).
  { apply Forall_forall. intros line Hline.
    assert (Hline' : line ∈ file_lines fin).
    { destruct (file_lines fin); [done|]. by right. }
    split; [apply (strip_file_line fin), Hline'|].
    intros Hc. apply Hfin. eapply file_lines_chars; eassumption. }
  unfold read_lines. rewrite translate_newlines_id.
  - eexists. split.
    + change (header ++ concat ?r) with (concat (header :: r)).
      apply file_lines_concat. constructor; [apply header_line|].
      clear Hlen. revert labels Hin.
      induction Hlines as [|line lines [Hline _] _ IH]; intros labels Hin; [constructor|].
      destruct labels as [|label labels]; [constructor|].
      apply Forall_cons in Hin as [Hlabel Hin]. simpl. constructor; [|by apply IH].
      exists (join [TAB] (take 4 (split TAB (strip line))) ++ [TAB] ++ label).
      split; [|by rewrite <- !app_assoc].
      intros [Hc|[Hc|Hc]%elem_of_app]%elem_of_app.
      * apply join_chars in Hc as [Hc|(f & Hf & Hc)].
        -- apply list_elem_of_singleton in Hc. discriminate.
        -- assert (Hf' : f ∈ split TAB (strip line)).
           { rewrite <- (take_drop 4 (split TAB (strip line))).
             apply elem_of_app. by left. }
           destruct (split_chars _ _ _ _ Hf' Hc) as [Hs _]. done.
      * apply list_elem_of_singleton in Hc. discriminate.
      * by apply (proj1 (Hlabels label Hlabel)).
    + by rewrite length_zip_with, Hlen, Nat.min_id.
  - intros [Hc|Hc]%elem_of_app; [by apply (header_chars CR)|].
    clear Hlen. revert labels Hin Hc.
    induction Hlines as [|line lines [_ Hline] _ IH]; intros labels Hin Hc;
      [inversion Hc|].
    destruct labels as [|label labels]; [inversion Hc|].
    apply Forall_cons in Hin as [Hlabel Hin]. simpl in Hc.
    apply elem_of_app in Hc as [Hc|Hc]; [|by apply (IH labels)].
    apply (submission_row_chars (fun c => c <> CR) line label) in Hc; [done|..].
    + discriminate.
    + discriminate.
    + by intros c Hc' ->.
    + intros c Hc' ->. by apply (proj2 (Hlabels label Hlabel)).
Qed.
End SubmissionFacts.

(** * Properties of [build_sswe_vectors] *)

Section SsweFacts.
Context {Row : Type}.

Lemma last_index_None tok toks : last_index tok toks = None <-> tok ∉ toks.
Proof.
  induction toks as [|t toks IH]; simpl.
  - split; [|done]. intros _ Hin. inversion Hin.
  - destruct (last_index tok toks) as [k|].
    + split; [discriminate|]. intros Hnot. exfalso. apply Hnot. right.
      destruct (decide (tok ∈ toks)) as [|Hn]; [done|]. apply IH in Hn. discriminate.
    + destruct (decide (t = tok)) as [->|Hne].
      * split; [discriminate|]. intros Hnot. exfalso. apply Hnot. left.
      * split; [|done]. intros _ [->|Hin]%elem_of_cons; [done|].
        by apply (proj1 IH).
Qed.

Lemma last_index_Some tok toks j :
  last_index tok toks = Some j <->
  toks !! j = Some tok /\ forall j', (j < j')%nat -> toks !! j' <> Some tok.
Proof.
  revert j. induction toks as [|t toks IH]; intros j; simpl.
  - split; [discriminate|]. intros [? _]. discriminate.
  - destruct (last_index tok toks) as [k|] eqn:Hk.
    + split.
      * intros [= <-]. destruct (proj1 (IH k) eq_refl) as [Hl Hlast].
        split; [done|]. intros [|j'] Hj'; [lia|]. simpl. apply Hlast. lia.
      * intros [Hl Hlast]. destruct (proj1 (IH k) eq_refl) as [Hl' Hlast'].
        destruct j as [|j].
        -- exfalso. apply (Hlast (Datatypes.S k)); [lia|done].
        -- f_equal. f_equal. simpl in Hl.
           destruct (Nat.lt_trichotomy j k) as [Hlt|[->|Hgt]]; [|done|].
           ++ exfalso. apply (Hlast (Datatypes.S k)); [lia|done].
           ++ exfalso. apply (Hlast' j); done.
    + assert (Hnone : forall j', toks !! j' <> Some tok).
      { intros j' Hj'. apply last_index_None in Hk. apply Hk.
        eapply list_elem_of_lookup_2, Hj'. }
      destruct (decide (t = tok)) as [->|Hne].
      * split.
        -- intros [= <-]. split; [done|]. intros [|j'] Hj'; [lia|]. apply Hnone.
        -- intros [Hl _]. destruct j as [|j]; [done|]. exfalso. eapply Hnone, Hl.
      * split; [discriminate|]. intros [Hl _].
        destruct j as [|j]; simpl in Hl; [congruence|]. exfalso. eapply Hnone, Hl.
Qed.

(** [stoi] maps a token to the index of its last line in the vocabulary
    file. *)
Lemma read_vocab_stoi lines :
  forall idx itos (stoi : gmap str nat) tok,
    (read_vocab lines idx itos stoi).2 !! tok =
    match last_index tok (map strip lines) with
    | Some j => Some (idx + j)%nat
    | None => stoi !! tok
    end.
Proof.
  induction lines as [|line lines IH]; intros idx itos stoi tok; simpl; [done|].
  rewrite IH. destruct (last_index tok (map strip lines)) as [j|].
  - f_equal. lia.
  - destruct (decide (strip line = tok)) as [->|Hne].
    + rewrite lookup_insert_eq. f_equal. lia.
    + rewrite lookup_insert_ne by done. done.
Qed.

Lemma traverse_index_Ok (embedding : list Row) (f : nat -> nat) (n : nat) :
  (forall i, (i < n)%nat -> (f i < length embedding)%nat) ->
  forall start,
    (start <= n)%nat ->
    exists vectors,
      traverse (fun i => py_index embedding (f i)) (seq start (n - start)) = Ok vectors /\
      length vectors = (n - start)%nat /\
      forall k, (k < n - start)%nat -> vectors !! k = embedding !! f (start + k)%nat.
Proof.
  intros Hf start Hstart.
  remember (n - start)%nat as m eqn:Hm. revert start Hstart Hm.
  induction m as [|m IH]; intros start Hstart Hm; simpl.
  - exists []. split_and!; [done|done|]. intros k Hk. lia.
  - destruct (IH (Datatypes.S start)) as (vs & Hvs & Hlen & Hlook); [lia|lia|].
    destruct (lookup_lt_is_Some_2 embedding (f start)) as [row Hrow].
    { apply Hf. lia. }
    unfold py_index in *. rewrite Hrow. simpl. rewrite Hvs. simpl.
    exists (row :: vs). split_and!; [done|simpl; lia|].
    intros [|k] Hk; simpl.
    + rewrite Nat.add_0_r. done.
    + rewrite Hlook by lia. f_equal. f_equal. lia.
Qed.

(** C6, as the code has it. When the run's vocabulary is not empty and the
    source embedding has at least one row and a row for every line of the
    source vocabulary file, [build_sswe_vectors] returns a tensor with one
    row per token of the vocabulary: the row of token [i] is the source
    embedding row of the last line of the vocabulary file that, stripped,
    equals the token, and row 0 of the source embedding when there is no
    such line. Only the failed lookup of a token in [stoi] is caught. *)
Theorem sswe_rows_aligned (text_itos : list str) (embedding : list Row) (vocab : str) :
  text_itos <> [] ->
  (0 < length embedding)%nat ->
  (length (file_lines vocab) <= length embedding)%nat ->
  exists vectors,
    build_sswe_vectors text_itos embedding vocab = Ok vectors /\
    length vectors = length text_itos /\
    forall i tok,
      text_itos !! i = Some tok ->
      (forall j,
          map strip (file_lines vocab) !! j = Some tok ->
          (forall j', (j < j')%nat -> map strip (file_lines vocab) !! j' <> Some tok) ->
          vectors !! i = embedding !! j) /\
      (tok ∉ map strip (file_lines vocab) -> vectors !! i = embedding !! 0%nat).
Proof.
  intros Hne Hrow0 Hrows. unfold build_sswe_vectors.
  pose proof (read_vocab_stoi (file_lines vocab) 0 [] ∅) as Hstoi.
  destruct (read_vocab (file_lines vocab) 0 [] ∅) as [itos stoi]. simpl in Hstoi.
  set (toks := map strip (file_lines vocab)) in *.
  assert (Hidx : forall i tok,
             text_itos !! i = Some tok ->
             lookup_index text_itos stoi i = default 0%nat (last_index tok toks)).
  { intros i tok Htok. unfold lookup_index. rewrite Htok. simpl. rewrite Hstoi.
    destruct (last_index tok toks); done. }
  destruct (traverse_index_Ok embedding (lookup_index text_itos stoi)
                              (length text_itos)) with (start := 0%nat)
    as (vectors & Hvs & Hlen & Hlook); [|lia|].
  { intros i Hi. destruct (lookup_lt_is_Some_2 text_itos i Hi) as [tok Htok].
    rewrite (Hidx i tok Htok).
    destruct (last_index tok toks) as [j|] eqn:Hj; [|done]. simpl.
    apply last_index_Some in Hj as [Hj _]. apply lookup_lt_Some in Hj.
    unfold toks in Hj. rewrite length_map in Hj. lia. }
  rewrite Nat.sub_0_r in *. rewrite Hvs. simpl.
  exists vectors. split_and!.
  - unfold torch_stack. destruct vectors; [|done].
    destruct text_itos; [done|discriminate].
  - done.
  - intros i tok Htok.
    assert (Hi : (i < length text_itos)%nat) by (eapply lookup_lt_Some, Htok).
    rewrite (Hlook i Hi). simpl. rewrite (Hidx i tok Htok). split.
    + intros j Hj Hlast.
      rewrite (proj2 (last_index_Some tok toks j) (conj Hj Hlast)). done.
    + intros Hnot. rewrite (proj2 (last_index_None tok toks) Hnot). done.
Qed.

(** *** The vocabulary index, and every outcome of [build_sswe_vectors] *)

Lemma read_vocab_itos lines :
  forall idx itos (stoi : gmap str nat),
    (read_vocab lines idx itos stoi).1 = itos ++ map strip lines.
Proof.
  induction lines as [|line lines IH]; intros idx itos stoi; simpl.
  - by rewrite app_nil_r.
  - rewrite IH, <- app_assoc. done.
Qed.

(** X14. The index built from the source vocabulary file: [itos] is the
    list of the stripped lines; [stoi] has exactly the tokens of [itos];
    a token is mapped to an index at which [itos] holds it, and to the
    last such index when the file repeats it. *)
Theorem vocab_index_consistent (lines itos : list str) (stoi : gmap str nat) :
  read_vocab lines 0 [] ∅ = (itos, stoi) ->
  itos = map strip lines /\
  (forall tok, tok ∈ itos <-> is_Some (stoi !! tok)) /\
  (forall tok j, stoi !! tok = Some j -> itos !! j = Some tok) /\
  (forall tok j j', stoi !! tok = Some j -> itos !! j' = Some tok -> (j' <= j)%nat).
Proof.
  intros Hread.
  pose proof (read_vocab_itos lines 0 [] ∅) as Hitos.
  pose proof (read_vocab_stoi lines 0 [] ∅) as Hstoi.
  rewrite Hread in Hitos, Hstoi. simpl in Hitos, Hstoi. subst itos.
  split_and!; [done| | |].
  - intros tok. rewrite Hstoi.
    destruct (last_index tok (map strip lines)) as [j|] eqn:Hj.
    + apply last_index_Some in Hj as [Hj _]. split; [eauto|].
      intros _. eapply list_elem_of_lookup_2, Hj.
    + apply last_index_None in Hj. rewrite lookup_empty. split; [done|].
      intros [? [=]].
  - intros tok j. rewrite Hstoi.
    destruct (last_index tok (map strip lines)) as [k|] eqn:Hk; [|by rewrite lookup_empty].
    intros [= <-]. by apply last_index_Some in Hk as [Hk _].
  - intros tok j j'. rewrite Hstoi.
    destruct (last_index tok (map strip lines)) as [k|] eqn:Hk; [|by rewrite lookup_empty].
    intros [= <-] Hj'. apply last_index_Some in Hk as [_ Hlast].
    destruct (decide (j' <= k)%nat) as [|Hgt]; [done|].
    exfalso. apply (Hlast j'); [lia|done].
Qed.

Lemma traverse_seq {A B : Type} (f : nat -> res B) (g : A -> res B) (l : list A) :
  forall start,
    (forall i x, l !! i = Some x -> f (start + i)%nat = g x) ->
    traverse f (seq start (length l)) = traverse g l.
Proof.
  induction l as [|x l IH]; intros start Hfg; simpl; [done|].
  rewrite <- (Hfg 0%nat x eq_refl), Nat.add_0_r.
  rewrite (IH (Datatypes.S start)); [done|].
  intros i y Hy. rewrite <- (Hfg (Datatypes.S i) y Hy). f_equal. lia.
Qed.

Lemma traverse_py_index {A : Type} (embedding : list Row) (g : A -> nat) (l : list A) :
  match traverse (fun x => py_index embedding (g x)) l with
  | Ok vs => Forall2 (fun x v => embedding !! g x = Some v) l vs
  | Raise e =>
      e = IndexError /\ Exists (fun x => (length embedding <= g x)%nat) l
  end.
Proof.
  unfold py_index. induction l as [|x l IH]; simpl; [constructor|].
  destruct (embedding !! g x) as [v|] eqn:Hv; simpl.
  - destruct (traverse _ l) as [vs|e]; simpl.
    + by constructor.
    + destruct IH as [-> IH]. split; [done|]. by right.
  - split; [done|]. left. by apply lookup_ge_None.
Qed.

(** X15. Every outcome of [build_sswe_vectors]. It returns a tensor
    exactly when the vocabulary is not empty and the source embedding has
    a row at the index of every token (the index of its last line in the
    vocabulary file, 0 when it has none); the tensor then has that row for
    each token, in order. An empty vocabulary raises [RuntimeError]
    ([torch.stack]); otherwise an index outside the source embedding
    raises [IndexError]. *)
Theorem sswe_outcome (text_itos : list str) (embedding : list Row) (vocab : str) :
  let index tok :=
    default 0%nat (last_index tok (map strip (file_lines vocab))) in
  match build_sswe_vectors text_itos embedding vocab with
  | Ok vectors =>
      text_itos <> [] /\
      Forall2 (fun tok v => embedding !! index tok = Some v) text_itos vectors
  | Raise e =>
      (e = RuntimeError /\ text_itos = [] ) \/
      (e = IndexError /\
       Exists (fun tok => (length embedding <= index tok)%nat) text_itos)
  end.
Proof.
  intros index. unfold build_sswe_vectors.
  pose proof (read_vocab_stoi (file_lines vocab) 0 [] ∅) as Hstoi.
  destruct (read_vocab (file_lines vocab) 0 [] ∅) as [itos stoi]. simpl in Hstoi.
  rewrite (traverse_seq _ (fun tok => py_index embedding (index tok))).
  - pose proof (traverse_py_index embedding index text_itos) as Hcases.
    destruct (traverse _ text_itos) as [vs|e]; simpl.
    + unfold torch_stack. destruct vs as [|v vs].
      * left. split; [done|]. by apply Forall2_nil_inv_r in Hcases.
      * split; [|done]. intros ->. inversion Hcases.
    + right. done.
  - intros i tok Htok. simpl. unfold lookup_index. rewrite Htok. simpl.
    rewrite Hstoi. unfold index.
    destruct (last_index tok (map strip (file_lines vocab))); done.
Qed.
End SsweFacts.

(** * [submission] and [build_sswe_vectors] on small inputs *)

Section DemoSubmissionFacts.
Import DemoSubmission.

(** C2, as stated, fails: the data row [0 hi yo] with a blank third turn
    has the four columns [0], [hi], [yo] and the empty one; [strip] removes
    the trailing tab, so the row written has three columns before the
    label, whatever the label. *)
Lemma stripped_row_differs_from_input_columns :
  exists out line,
    DemoSubmission.submission fin_blank = Ok out /\
    tail (file_lines fin_blank) = [line] /\
    split TAB (chomp line) = [s_ "0"; s_ "hi"; s_ "yo"; []] /\
    out = header ++ s_ "0" ++ [TAB] ++ s_ "hi" ++ [TAB] ++ s_ "yo" ++ [TAB]
                 ++ s_ "happy" ++ [NL] /\
    forall label, out <> header ++ row_as_specified line label.
Proof.
  eexists _, _. split; [vm_compute; reflexivity|].
  split; [vm_compute; reflexivity|].
  split; [vm_compute; reflexivity|].
  split; [vm_compute; reflexivity|].
  intros label Heq. vm_compute in Heq. congruence.
Defined.

Lemma submission_header_and_rows_witness :
  exists out,
    DemoSubmission.submission fin_plain = Ok out /\
    exists (predicted : list nat) (labels : list str),
      Forall2 (fun logits i => argmax (normalize logits) = Ok i)
              (all_logits (fun batch => batch) test_iter) predicted /\
      length labels = length (tail (file_lines fin_plain)) /\
      (forall k label,
          labels !! k = Some label ->
          exists i, predicted !! k = Some i /\ itos !! i = Some label) /\
      out = header
              ++ concat (zip_with (fun line label =>
                                     join [TAB] (take 4 (split TAB (strip line)))
                                       ++ [TAB] ++ label ++ [NL])
                                  (tail (file_lines fin_plain)) labels).
Proof.
  eexists. split; [vm_compute; reflexivity|].
  eapply (@submission_header_and_rows Q (list (list Q)) Score_Q
            (fun batch => batch) normalize test_iter itos (Ok tt) fin_plain).
  vm_compute. reflexivity.
Defined.

Lemma predicted_label_is_argmax_of_softmax_witness :
  exists out,
    DemoSubmission.submission fin_plain = Ok out /\
    forall out', DemoSubmission.submission fin_plain = Ok out' -> out' = out.
Proof.
  eexists. split; [vm_compute; reflexivity|].
  eapply (@predicted_label_is_argmax_of_softmax Q (list (list Q)) Score_Q
            (fun batch => batch) normalize test_iter itos (Ok tt) fin_plain).
  vm_compute. reflexivity.
Defined.
End DemoSubmissionFacts.

Section DemoSsweFacts.
Import DemoSswe.

(** C6, as stated, fails: the token [bad] is on the third line of the
    source vocabulary file, the source embedding has a single row, and the
    [IndexError] of [embedding[2]] reaches the caller: no tensor is
    produced. *)
Lemma embedding_index_error_propagates :
  last_index (s_ "bad") (map strip (file_lines vocab)) = Some 2%nat /\
  length embedding_short = 1%nat /\
  build_sswe_vectors text_itos embedding_short vocab = Raise IndexError /\
  ~ exists vectors, build_sswe_vectors text_itos embedding_short vocab = Ok vectors.
Proof.
  split; [vm_compute; reflexivity|]. split; [reflexivity|].
  split; [vm_compute; reflexivity|].
  intros [vectors Hv]. vm_compute in Hv. discriminate Hv.
Defined.

Lemma sswe_rows_aligned_witness :
  exists vectors,
    build_sswe_vectors text_itos embedding vocab = Ok vectors /\
    vectors = [[0; 0]; [2; 2]; [0; 0]; [1; 1]] /\
    length vectors = length text_itos.
Proof.
  destruct (sswe_rows_aligned text_itos embedding vocab)
    as (vectors & Hv & Hlen & _).
  - discriminate.
  - simpl. lia.
  - vm_compute. lia.
  - exists vectors. split; [exact Hv|]. split; [|exact Hlen].
    vm_compute in Hv. congruence.
Defined.
End DemoSsweFacts.

(** * Properties of the class weights of the focal loss *)

Section FocalFacts.
Context {F : Type}.
Variable one three : F.
Variable fsub fdiv : F -> F -> F.

(** X7. The class weights of the focal loss: there are [class_size] of
    them, the class [others] gets [fl_alpha] and every other class gets
    the one weight [(1. - fl_alpha) / 3.], whatever the number of classes
    (the divisor is the constant three). An index of [others] outside the
    classes raises [IndexError], as does any index when [class_size] is
    zero or negative. *)
Theorem focal_alpha_weights (a : F) (class_size : Z) (others_idx : nat) :
  match focal_alpha one three fsub fdiv (Some a) class_size others_idx with
  | Ok (Some alpha) =>
      Z.of_nat (length alpha) = class_size /\
      alpha !! others_idx = Some a /\
      (forall j, j <> others_idx -> (j < length alpha)%nat ->
                 alpha !! j = Some (fdiv (fsub one a) three))
  | Ok None => False
  | Raise e => e = IndexError /\ (class_size <= Z.of_nat others_idx)%Z
  end.
Proof.
  unfold focal_alpha, py_setitem. rewrite length_replicate.
  destruct (decide (others_idx < Z.to_nat class_size)%nat) as [Hlt|Hge]; simpl;
    [|split; [done|lia]].
  rewrite length_insert, length_replicate. split_and!.
  - lia.
  - apply list_lookup_insert_eq. by rewrite length_replicate.
  - intros j Hj Hjn. rewrite list_lookup_insert_ne by done.
    by apply lookup_replicate_2.
Qed.
End FocalFacts.

(** * Properties of [build_datastories_vectors] *)

Lemma split_ws_blank (s : str) :
  Forall (fun c => py_isspace c = true) s -> split_ws s = [].
Proof.
  unfold split_ws. induction 1 as [|c s Hc _ IH]; simpl; [done|].
  rewrite Hc. exact IH.
Qed.

Lemma py_index_head {A : Type} (l : list A) (x : A) :
  py_index l 0 = Ok x <-> head l = Some x.
Proof.
  unfold py_index. destruct l as [|y l]; simpl; [split; discriminate|].
  split; intros [= ->]; done.
Qed.

Section DatastoriesFacts.
Context {F : Type}.
Variable parse_float : str -> option F.
Variable stoi : gmap str nat.

(** The first field of a line. *)
Definition word_of (line : str) : option str := head (split_ws line).

Lemma index_lines_app (l1 l2 : list str) :
  forall d, index_lines parse_float stoi (l1 ++ l2) d = index_lines parse_float stoi l1 d ≫= index_lines parse_float stoi l2.
Proof.
  induction l1 as [|line l1 IH]; intros d; simpl; [reflexivity|].
  destruct (py_index (split_ws line) 0) as [word|e]; simpl; [|done].
  destruct (stoi !! word); [|apply IH].
  destruct (np_asarray parse_float (tail (split_ws line))); simpl; [apply IH|done].
Qed.

Lemma index_lines_keys (lines : list str) :
  forall d d',
    index_lines parse_float stoi lines d = Ok d' ->
    forall w,
      is_Some (d' !! w) <->
      is_Some (d !! w) \/
      (is_Some (stoi !! w) /\ exists line, line ∈ lines /\ word_of line = Some w).
Proof.
  induction lines as [|line lines IH]; intros d d' Hrun w; simpl in Hrun.
  - injection Hrun as <-. split; [by left|]. intros [H|(_ & line & Hin & _)]; [done|].
    inversion Hin.
  - apply bind_Ok in Hrun as (word & Hword & Hrun). apply py_index_head in Hword.
    destruct (stoi !! word) as [idx|] eqn:Hstoi.
    + apply bind_Ok in Hrun as (coefs & Hcoefs & Hrun).
      rewrite (IH _ _ Hrun w). rewrite lookup_insert_is_Some. split.
      * intros [[<-|[_ Hd]]|(Hs & l & Hl & Hw)].
        -- right. split; [by rewrite Hstoi|]. exists line. split; [left|done].
        -- by left.
        -- right. split; [done|]. exists l. split; [by right|done].
      * intros [Hd|(Hs & l & [->|Hl]%elem_of_cons & Hw)].
        -- left. destruct (decide (word = w)); [by left|by right].
        -- left. left. unfold word_of in Hw. congruence.
        -- right. split; [done|]. by exists l.
    + rewrite (IH _ _ Hrun w). split.
      * intros [Hd|(Hs & l & Hl & Hw)]; [by left|].
        right. split; [done|]. exists l. split; [by right|done].
      * intros [Hd|(Hs & l & [->|Hl]%elem_of_cons & Hw)]; [by left| |].
        -- unfold word_of in Hw. rewrite Hword in Hw. injection Hw as ->.
           rewrite Hstoi in Hs. by destruct Hs.
        -- right. split; [done|]. by exists l.
Qed.

Lemma index_lines_other (lines : list str) (w : str) :
  forall d d',
    index_lines parse_float stoi lines d = Ok d' ->
    (forall line, line ∈ lines -> word_of line <> Some w) ->
    d' !! w = d !! w.
Proof.
  induction lines as [|line lines IH]; intros d d' Hrun Hno; simpl in Hrun.
  - by injection Hrun as <-.
  - apply bind_Ok in Hrun as (word & Hword & Hrun). apply py_index_head in Hword.
    assert (Hne : word <> w).
    { intros ->. apply (Hno line); [left|done]. }
    assert (Hno' : forall l, l ∈ lines -> word_of l <> Some w).
    { intros l Hl. apply Hno. by right. }
    destruct (stoi !! word).
    + apply bind_Ok in Hrun as (coefs & _ & Hrun).
      rewrite (IH _ _ Hrun Hno'). by rewrite lookup_insert_ne.
    + apply (IH _ _ Hrun Hno').
Qed.

(** X8. What [build_datastories_vectors] builds when it completes: every
    line of the file has a first field; the words of the dictionary are
    exactly the words of the vocabulary that are the first field of some
    line; a word gets the numbers of the last line that starts with it;
    and the count printed is at most the size of the vocabulary. A
    missing file gives nothing. *)
Theorem datastories_dict (content : str) (d : gmap str (list F)) (n : nat) :
  build_datastories_vectors parse_float stoi (Some content) = Ok (Some (d, n)) ->
  (forall line, line ∈ file_lines content -> is_Some (word_of line)) /\
  (forall w, is_Some (d !! w) <->
             is_Some (stoi !! w) /\
             exists line, line ∈ file_lines content /\ word_of line = Some w) /\
  (forall pre line post w,
      file_lines content = pre ++ line :: post ->
      word_of line = Some w ->
      is_Some (stoi !! w) ->
      (forall l, l ∈ post -> word_of l <> Some w) ->
      exists coefs,
        np_asarray parse_float (tail (split_ws line)) = Ok coefs /\ d !! w = Some coefs) /\
  n = size d /\ (n <= size stoi)%nat /\
  build_datastories_vectors parse_float stoi None = Ok None.
Proof.
  unfold build_datastories_vectors.
  intros (d' & Hrun & [= <- <-])%bind_Ok. 
  pose proof (index_lines_keys _ _ _ Hrun) as Hkeys.
  split_and!; try done.
  - clear Hkeys. revert Hrun. generalize (∅ : gmap str (list F)).
    induction (file_lines content) as [|l ls IH]; intros d0 Hrun line Hin;
      [inversion Hin|].
    simpl in Hrun. apply bind_Ok in Hrun as (word & Hword & Hrun).
    apply py_index_head in Hword.
    apply elem_of_cons in Hin as [->|Hin]; [by exists word|].
    destruct (stoi !! word).
    + apply bind_Ok in Hrun as (coefs & _ & Hrun). eapply IH; eassumption.
    + eapply IH; eassumption.
  - intros w. rewrite (Hkeys w). rewrite lookup_empty. split.
    + intros [[? [=]]|H]; done.
    + intros H. by right.
  - intros pre line post w Hsplit Hw Hs Hlast.
    rewrite Hsplit, index_lines_app in Hrun.
    apply bind_Ok in Hrun as (d1 & _ & Hrun). simpl in Hrun.
    apply bind_Ok in Hrun as (word & Hword & Hrun). apply py_index_head in Hword.
    unfold word_of in Hw. rewrite Hword in Hw. injection Hw as ->.
    destruct Hs as [idx Hs]. rewrite Hs in Hrun.
    apply bind_Ok in Hrun as (coefs & Hcoefs & Hrun).
    exists coefs. split; [done|].
    rewrite (index_lines_other _ _ _ _ Hrun Hlast). apply lookup_insert_eq.
  - rewrite <- !size_dom. apply subseteq_size. intros w Hw.
    apply elem_of_dom. apply elem_of_dom in Hw. apply Hkeys in Hw.
    destruct Hw as [Hw|[Hw _]]; [|done]. rewrite lookup_empty in Hw. by destruct Hw.
Qed.

(** X9. A line of white space only (an empty line, say) makes
    [build_datastories_vectors] fail with [IndexError] at [values[0]],
    when the numbers of the lines parse. *)
Theorem datastories_blank_line_raises (content : str) :
  (forall line v, line ∈ file_lines content -> v ∈ tail (split_ws line) ->
                  is_Some (parse_float v)) ->
  (exists line, line ∈ file_lines content /\
                Forall (fun c => py_isspace c = true) line) ->
  build_datastories_vectors parse_float stoi (Some content) = Raise IndexError.
Proof.
  intros Hparse (blank & Hin & Hblank). unfold build_datastories_vectors.
  assert (Hrun : forall d, index_lines parse_float stoi (file_lines content) d = Raise IndexError).
  { revert Hparse Hin. induction (file_lines content) as [|l ls IH];
      intros Hparse Hin d; [inversion Hin|].
    simpl. destruct (py_index (split_ws l) 0) as [word|e] eqn:Hword.
    - simpl. apply elem_of_cons in Hin as [<-|Hin].
      { rewrite (split_ws_blank _ Hblank) in Hword. discriminate. }
      assert (IH' : forall d, index_lines parse_float stoi ls d = Raise IndexError).
      { apply IH; [|done]. intros line v Hl. apply Hparse. by right. }
      destruct (stoi !! word); [|apply IH'].
      assert (Hcoefs : exists coefs, np_asarray parse_float (tail (split_ws l)) = Ok coefs).
      { unfold np_asarray.
        assert (Hall : forall v, v ∈ tail (split_ws l) -> is_Some (parse_float v)).
        { intros v. apply Hparse. left. }
        induction (tail (split_ws l)) as [|v vs IHv]; simpl; [eauto|].
        destruct (Hall v) as [x ->]; [left|]. simpl.
        destruct IHv as [coefs ->]; [intros; apply Hall; by right|]. simpl. eauto. }
      destruct Hcoefs as [coefs ->]. simpl. apply IH'.
    - simpl. f_equal. unfold py_index in Hword.
      destruct (split_ws l !! 0%nat); [discriminate|congruence]. }
  by rewrite Hrun.
Qed.
End DatastoriesFacts.

(** * More runs on small inputs *)

Section DemoExtraFacts.
Import Demo DemoExtra.

Lemma every_batch_trained_once_witness :
  exists st,
    Demo.train args_count iter_count = Ok st /\
    step_ids (history st)
    = [(0%nat, 0); (0%nat, 1); (0%nat, 2); (0%nat, 3); (0%nat, 4);
       (1%nat, 0); (1%nat, 1); (1%nat, 2); (1%nat, 3); (1%nat, 4)].
Proof.
  eexists. split; [vm_compute; reflexivity|].
  etransitivity.
  - eapply (@every_batch_trained_once Q Batch unit forward_backward Qmult
              total_norm_of adam_step (fun o => o) test iter_count args_count
              model h0 tt).
    vm_compute. reflexivity.
  - vm_compute. reflexivity.
Defined.

(** Five batches per epoch, two epochs: two reports and one validation
    per epoch. *)
Lemma reports_and_validations_count_witness :
  exists st,
    Demo.train args_count iter_count = Ok st /\
    Z.of_nat (n_reports (history st)) = 4 /\
    Z.of_nat (n_validations (history st)) = 2.
Proof.
  eexists. split; [vm_compute; reflexivity|].
  destruct (@reports_and_validations_count Q Batch unit forward_backward Qmult
              total_norm_of adam_step (fun o => o) test iter_count args_count
              model h0 tt _ ltac:(reflexivity) ltac:(reflexivity)
              ltac:(vm_compute; reflexivity)) as [Hr Hv].
  split; [exact Hr|exact Hv].
Defined.

Lemma max_dev_acc_is_running_maximum_witness :
  exists st,
    Demo.train args_count iter_count = Ok st /\
    (st_max_dev_acc st = 0%Q \/ st_max_dev_acc st ∈ dev_accs (history st)).
Proof.
  eexists. split; [vm_compute; reflexivity|].
  eapply (@max_dev_acc_is_running_maximum Q Batch unit forward_backward Qmult
            total_norm_of adam_step (fun o => o) test iter_count args_count
            model h0 tt).
  vm_compute. reflexivity.
Defined.

Lemma returned_f1_belongs_to_returned_model_witness :
  exists st,
    Demo.train args_f1 iter_f1 = Ok st /\
    st_max_dev_f1 st = 0.6%Q /\
    forall f, f ∈ dev_f1s (st_trace st) -> (f <= st_max_dev_f1 st)%Q.
Proof.
  eexists. split; [vm_compute; reflexivity|]. split; [reflexivity|].
  eapply (@returned_f1_belongs_to_returned_model Q Batch unit forward_backward
            Qmult total_norm_of adam_step (fun o => o) test iter_f1 args_f1
            model h0 tt).
  vm_compute. reflexivity.
Defined.

Lemma zero_interval_raises_witness :
  print_every args_zero = 0 /\
  Demo.train args_zero iter_clip = Raise ZeroDivisionError.
Proof.
  split; [reflexivity|].
  apply (@zero_interval_raises Q Batch unit forward_backward Qmult
           total_norm_of adam_step (fun o => o) test iter_clip args_zero
           model h0 tt).
  - left. reflexivity.
  - discriminate.
  - exists 0%nat. split; [vm_compute; lia|discriminate].
Defined.

(** The trainable parameter moves from 0 to 0.6; the frozen one stays
    at 7. *)
Lemma frozen_tensors_unchanged_witness :
  exists st,
    train_frozen = Ok st /\
    read_data (st_heap st) model_frozen = [0.6%Q; 7%Q] /\
    st_heap st !! 1%nat = Some (mkCell 7%Q None false).
Proof.
  eexists. split; [vm_compute; reflexivity|]. split; [reflexivity|].
  eapply (@frozen_tensors_unchanged Q Batch unit forward_backward Qmult
            total_norm_of adam_step (fun o => o) test iter_f1 args_f1
            model_frozen h0_frozen tt).
  - vm_compute. reflexivity.
  - reflexivity.
  - reflexivity.
Defined.

(** [good] is in the vocabulary and on two lines: the last one wins;
    [meh] is not in the vocabulary; one word is found. *)
Lemma datastories_dict_witness :
  exists d,
    build_datastories_vectors parse_digits text_stoi (Some vectors_file)
    = Ok (Some (d, 1%nat)) /\
    d !! s_ "good" = Some [4%N; 5%N] /\
    (1 <= size text_stoi)%nat.
Proof.
  eexists. split; [vm_compute; reflexivity|]. split; [vm_compute; reflexivity|].
  eapply (@datastories_dict N parse_digits text_stoi vectors_file).
  vm_compute. reflexivity.
Defined.

Lemma datastories_blank_line_raises_witness :
  build_datastories_vectors parse_digits text_stoi (Some vectors_file_blank)
  = Raise IndexError.
Proof.
  apply datastories_blank_line_raises.
  - intros line v Hline Hv. vm_compute in Hline.
    repeat (apply elem_of_cons in Hline as [->|Hline];
            [vm_compute in Hv;
             repeat (apply elem_of_cons in Hv as [->|Hv]; [vm_compute; eauto|]);
             inversion Hv|]).
    inversion Hline.
  - exists [NL]. split; [|repeat constructor].
    vm_compute. right. left.
Defined.
End DemoExtraFacts.

Section DemoSubmissionExtraFacts.
Import DemoSubmission DemoExtra.

Lemma submission_completes_witness :
  exists out, DemoSubmission.submission fin_plain = Ok out.
Proof.
  destruct (@submission_completes Q (list (list Q)) Score_Q (fun batch => batch)
              normalize test_iter itos (Ok tt) fin_plain 4%nat) as (out & Hout & _).
  - reflexivity.
  - discriminate.
  - vm_compute. lia.
  - vm_compute. repeat constructor.
  - vm_compute. lia.
  - exists out. exact Hout.
Defined.

Lemma submission_too_few_predictions_witness :
  length (tail (file_lines fin_long)) = 4%nat /\
  DemoSubmission.submission fin_long = Raise IndexError.
Proof.
  split; [vm_compute; reflexivity|].
  apply (@submission_too_few_predictions Q (list (list Q)) Score_Q
           (fun batch => batch) normalize test_iter itos (Ok tt) fin_long 4%nat).
  - reflexivity.
  - discriminate.
  - lia.
  - vm_compute. repeat constructor.
  - vm_compute. lia.
Defined.

Lemma wellformed_rows_pass_through_witness :
  exists out labels,
    DemoSubmission.submission fin_plain = Ok out /\
    out = header
            ++ concat (zip_with (fun line label => strip line ++ [TAB] ++ label ++ [NL])
                                (tail (file_lines fin_plain)) labels).
Proof.
  destruct (@wellformed_rows_pass_through Q (list (list Q)) Score_Q
              (fun batch => batch) normalize test_iter itos (Ok tt) fin_plain _
              ltac:(vm_compute; reflexivity)) as (labels & _ & Hout).
  - vm_compute. repeat constructor; lia.
  - eexists _, labels. split; [vm_compute; reflexivity|exact Hout].
Defined.

Lemma submission_file_reads_back_witness :
  exists out rows,
    DemoSubmission.submission fin_plain = Ok out /\
    read_lines out = header :: rows /\
    length rows = 3%nat.
Proof.
  destruct (@submission_file_reads_back Q (list (list Q)) Score_Q
              (fun batch => batch) normalize test_iter itos (Ok tt) fin_plain _
              ltac:(vm_compute; reflexivity)) as (rows & Hback & Hlen).
  - rewrite list_elem_of_In. vm_compute. intuition discriminate.
  - intros label Hlabel. vm_compute in Hlabel.
    rewrite !list_elem_of_In.
    repeat (apply elem_of_cons in Hlabel as [->|Hlabel];
            [vm_compute; intuition discriminate|]).
    inversion Hlabel.
  - eexists _, rows. split; [vm_compute; reflexivity|]. split; [exact Hback|].
    rewrite Hlen. vm_compute. reflexivity.
Defined.
End DemoSubmissionExtraFacts.

Section DemoSsweExtraFacts.
Import DemoSswe.

Lemma vocab_index_consistent_witness :
  exists itos stoi,
    read_vocab (file_lines vocab) 0 [] ∅ = (itos, stoi) /\
    itos = [s_ "<unk>"; s_ "good"; s_ "bad"] /\
    stoi !! s_ "bad" = Some 2%nat /\
    forall tok j, stoi !! tok = Some j -> itos !! j = Some tok.
Proof.
  eexists _, _. split; [vm_compute; reflexivity|].
  split; [reflexivity|]. split; [vm_compute; reflexivity|].
  eapply (vocab_index_consistent (file_lines vocab)).
  vm_compute. reflexivity.
Defined.
End DemoSsweExtraFacts.
